(** * Probabilistic data reconciliation, single process unit

    A shallow embedding of the notebook [single_process_unit.ipynb]:
    the configuration cell, the trapezoidal cell, the MCMC cell and the
    analytical cell.

    Numbers.  Python floats and numpy [float64] scalars are read as real
    numbers with exact arithmetic ([R] of the Standard Library); rounding
    is not modelled.  Where Python leaves the reals the embedding says so
    explicitly: a division of Python floats by zero raises
    [ZeroDivisionError], a division of numpy scalars by zero gives
    [inf]/[nan] under a warning ([NonFinite] below), a square of a Python
    float that is out of the range of floats raises [OverflowError], the
    same square of a numpy scalar gives [inf] ([NonFinite] again), and
    [np.log 0] is [-inf] ([NegInf] below). *)

From Stdlib Require Import Reals Lra Lia List Arith Bool ZArith.
Import ListNotations.
Open Scope R_scope.

(** ** Python and numpy primitives *)

Module Py.

(** Comparison of two floats, as a boolean. *)
Definition Rltb (x y : R) : bool := if Rlt_dec x y then true else false.

(** Exceptions the cells can raise. *)
Inductive exn : Type := ZeroDivisionError | IndexError | OverflowError.

(** Result of running a piece of the notebook: a value, a raised
    exception, or a numpy [inf]/[nan] (execution goes on in Python but
    has left the real numbers). *)
Inductive outcome (A : Type) : Type :=
| Ok (a : A)
| Raised (e : exn)
| NonFinite.
Arguments Ok {A} a.
Arguments Raised {A} e.
Arguments NonFinite {A}.

Definition bind {A B : Type} (m : outcome A) (f : A -> outcome B) : outcome B :=
  match m with
  | Ok a => f a
  | Raised e => Raised e
  | NonFinite => NonFinite
  end.

(** A sequence of three flows is either a Python list of Python floats
    (the start point [x0]) or a numpy array (a proposal [sel_x]). *)
Inductive seq_kind : Type := PyList | NdArray.

Record vec : Type := mkvec { kind : seq_kind; elems : list R }.

(** [par[i]] *)
Definition getitem (par : vec) (i : nat) : outcome R :=
  match nth_error (elems par) i with
  | Some x => Ok x
  | None => Raised IndexError
  end.

(** [num / den] on scalars taken from a sequence of kind [k]. *)
Definition truediv (k : seq_kind) (num den : R) : outcome R :=
  if Req_dec_T den 0 then
    match k with
    | PyList => Raised ZeroDivisionError
    | NdArray => NonFinite
    end
  else Ok (num / den).

(** The magnitude from which a float result rounds to infinity,
    [2^1024 - 2^970]: half an ulp above the largest float. *)
Definition float_overflow : R := 2 ^ 1024 - 2 ^ 970.

(** [x ** 2] on a scalar taken from a sequence of kind [k].  When the
    square is out of the range of floats, [**] on a Python float raises
    [OverflowError]; on a numpy scalar it gives [inf] under a warning. *)
Definition pow2 (k : seq_kind) (x : R) : outcome R :=
  if Rltb (x ^ 2) float_overflow then Ok (x ^ 2)
  else
    match k with
    | PyList => Raised OverflowError
    | NdArray => NonFinite
    end.

(** Builtin [min(a, b)]: the second argument only when it is smaller. *)
Definition min (a b : R) : R := if Rltb b a then b else a.

(** Builtin [sum] over an array of booleans. *)
Definition sum (bs : list bool) : nat := list_sum (map Nat.b2n bs).

(** Extended floats, only for the value of [np.log]. *)
Inductive ext : Type := NegInf | NaN | Fin (r : R).

(** [np.log u] *)
Definition log (u : R) : ext :=
  if Req_dec_T u 0 then NegInf
  else if Rltb u 0 then NaN
  else Fin (ln u).

(** [e < t] for an extended float [e] and a finite float [t]. *)
Definition ext_ltb (e : ext) (t : R) : bool :=
  match e with
  | NegInf => true
  | NaN => false
  | Fin r => Rltb r t
  end.

End Py.

Import Py.

Notation "x <- m ;; k" := (bind m (fun x => k))
  (at level 61, m at next level, right associativity).

(** ** Configuration cell *)

Record Config : Type := mkConfig {
  sig : R;
  sig_e : R;
  y : R;
  a_1 : R; a_2 : R; a_3 : R;
  b_1 : R; b_2 : R; b_3 : R
}.

(** The values the notebook assigns. *)
Definition notebook : Config :=
  {| sig := 0.1; sig_e := 0.0001; y := 1.5;
     a_1 := 0; a_2 := 0; a_3 := 0;
     b_1 := 3; b_2 := 3; b_3 := 3 |}.

(** ** MCMC cell: [log_prob] *)

Definition sentinel : R := -1e+120.

(** [sum( (np.array(par)>0)&(np.array(par)<3) )==3] *)
Definition in_support (xs : list R) : bool :=
  Nat.eqb (Py.sum (map (fun x => Rltb 0 x && Rltb x 3) xs)) 3.

Definition log_prob (c : Config) (par : vec) : outcome R :=
  if in_support (elems par) then
    p0 <- getitem par 0 ;;
    s1 <- pow2 (kind par) (y c - p0) ;;
    t1 <- truediv (kind par) (- s1) (2 * sig c) ;;
    q0 <- getitem par 0 ;;
    q1 <- getitem par 1 ;;
    q2 <- getitem par 2 ;;
    s2 <- pow2 (kind par) (0 - q0 + q1 + q2) ;;
    t2 <- truediv (kind par) (- s2) (2 * sig_e c) ;;
    Ok (t1 + t2)
  else Ok sentinel.

(** The first branch of [log_prob], the assignment [prob = ...], on the
    flows [p0 = par[0]], [p1 = par[1]], [p2 = par[2]]: the first square,
    the first division, the second square, the second division. *)
Definition prob_branch (c : Config) (k : seq_kind) (p0 p1 p2 : R) : outcome R :=
  s1 <- pow2 k (y c - p0) ;;
  t1 <- truediv k (- s1) (2 * sig c) ;;
  s2 <- pow2 k (0 - p0 + p1 + p2) ;;
  t2 <- truediv k (- s2) (2 * sig_e c) ;;
  Ok (t1 + t2).

(** The value [log_prob] computes when it neither raises nor leaves the
    reals, for a sequence of exactly three flows. *)
Definition log_density (c : Config) (x1 x2 x3 : R) : R :=
  - ((y c - x1) ^ 2) / (2 * sig c) + - ((0 - x1 + x2 + x3) ^ 2) / (2 * sig_e c).


(** ** numpy arrays and the random generator *)

Module Np.

Definition arr2 : Type := list (list R).
Definition arr3 : Type := list (list (list R)).

(** The array [f 0, ..., f (n-1)]. *)
Definition tab {A : Type} (n : nat) (f : nat -> A) : list A := map f (seq 0 n).

(** Elementwise binary operation on two arrays of one shape. *)
Definition map2 {A B C : Type} (f : A -> B -> C) (l1 : list A) (l2 : list B) : list C :=
  map (fun p => f (fst p) (snd p)) (combine l1 l2).

(** [np.sum] of a one-dimensional array. *)
Definition Rsum (l : list R) : R := fold_right Rplus 0 l.

(** [np.linspace(start, stop, num)]: [num] evenly spaced points, both
    ends included, [start + k * step] with [step = (stop - start) / (num - 1)]. *)
Definition linspace (start stop : R) (num : nat) : list R :=
  map (fun k => start + INR k * ((stop - start) / INR (num - 1))) (seq 0 num).

(** [np.meshgrid(x1, x2, x3)] with the default ['xy'] indexing: three
    arrays of shape [(len x2, len x1, len x3)]. *)
Definition meshgrid3 (x1 x2 x3 : list R) : arr3 * arr3 * arr3 :=
  (map (fun _ => map (fun a => map (fun _ => a) x3) x1) x2,
   map (fun b => map (fun _ => map (fun _ => b) x3) x1) x2,
   map (fun _ => map (fun _ => x3) x1) x2).

(** [np.meshgrid(x1, x2)]: two arrays of shape [(len x2, len x1)]. *)
Definition meshgrid2 (x1 x2 : list R) : arr2 * arr2 :=
  (map (fun _ => x1) x2, map (fun b => map (fun _ => b) x1) x2).

(** [A.shape] of a three-dimensional array. *)
Definition shape3 (A : arr3) : nat * nat * nat :=
  (length A, length (hd [] A), length (hd [] (hd [] A))).

(** [A.flatten()], row-major. *)
Definition flatten3 (A : arr3) : list R := concat (concat A).

(** [zip(l1, l2, l3)] *)
Definition zip3 (l1 l2 l3 : list R) : list (R * R * R) :=
  map (fun p => (fst p, fst (snd p), snd (snd p))) (combine l1 (combine l2 l3)).

(** [m] consecutive chunks of length [k]. *)
Fixpoint chunks {A : Type} (m k : nat) (l : list A) : list (list A) :=
  match m with
  | O => []
  | S m' => firstn k l :: chunks m' k (skipn k l)
  end.

(** [np.array(l).reshape(s)], row-major, for [len l] equal to the product
    of the three dimensions. *)
Definition reshape3 (s : nat * nat * nat) (l : list R) : arr3 :=
  let '(d0, d1, d2) := s in
  map (chunks d1 d2) (chunks d0 (d1 * d2) l).

(** [A[i, j, k]] *)
Definition get3 (A : arr3) (i j k : nat) : R := nth k (nth j (nth i A []) []) 0.

(** [A.T]: the axes reversed, [A.T[k, j, i] = A[i, j, k]]. *)
Definition transpose3 (A : arr3) : arr3 :=
  let '(d0, d1, d2) := shape3 A in
  tab d2 (fun k => tab d1 (fun j => tab d0 (fun i => get3 A i j k))).

(** [x[1:] - x[:-1]], that is [np.diff(x)]. *)
Definition diff (x : list R) : list R := map2 Rminus (tl x) (removelast x).

(** [np.trapezoid(y, x=x)] for one-dimensional [y] and [x]:
    [(d * (y[1:] + y[:-1]) / 2.0).sum()] with [d = diff(x)]. *)
Definition trapezoid1 (y x : list R) : R :=
  Rsum (map2 (fun d s => d * s / 2) (diff x) (map2 Rplus (tl y) (removelast y))).

(** [np.trapezoid(y, x=x, axis=1)] for two-dimensional [y] and [x] of one
    shape: every row is integrated against the same row of [x]. *)
Definition trapezoid_2d_axis1 (y x : arr2) : list R := map2 trapezoid1 y x.

(** [np.trapezoid(y, x=x, axis=0)] for two-dimensional [y] and [x] of one
    shape: differences and sums of consecutive rows, summed over the rows. *)
Definition trapezoid_2d_axis0 (y x : arr2) : list R :=
  let d := map2 (map2 Rminus) (tl x) (removelast x) in
  let s := map2 (map2 Rplus) (tl y) (removelast y) in
  let p := map2 (map2 (fun d s => d * s / 2)) d s in
  tab (length (hd [] y)) (fun b => Rsum (map (fun row => nth b row 0) p)).

(** [np.trapezoid(y, x=x, axis=1)] for three-dimensional [y] and [x] of
    one shape: the middle axis is integrated in every slab [y[a]]. *)
Definition trapezoid_3d_axis1 (y x : arr3) : arr2 := map2 trapezoid_2d_axis0 y x.

(** The generator: the raw draws of [random_sample] and the position of
    the next one. *)
Record RandomState : Type := mkRandomState { samples : nat -> R; pos : nat }.

Definition random_sample (g : RandomState) : R * RandomState :=
  (samples g (pos g), {| samples := samples g; pos := S (pos g) |}).

(** [np.random.uniform(low, high)] is [low + (high - low) * random_sample()].
    With exact arithmetic the value stays below [high]; the float sum can
    round to [high], so nothing below relies on [high] being excluded. *)
Definition uniform (low high : R) (g : RandomState) : R * RandomState :=
  let (r, g') := random_sample g in (low + (high - low) * r, g').

(** Every raw draw is a 53-bit fraction [k / 2^53] with [0 <= k < 2^53]:
    it lies in the half-open interval [[0, 1)], and 0 is one of its
    values. *)
Definition resolution : R := 9007199254740992.

Definition valid_rng (g : RandomState) : Prop :=
  forall n, exists k : Z,
    (0 <= k < 9007199254740992)%Z /\ samples g n = IZR k / resolution.

End Np.

Import Np.

(** ** Trapezoidal cell *)

Definition grid_pts : nat := 100.

(** The unnormalised density the loop appends for one grid point.
    [np.exp] is read as the exact exponential: its underflow to [0.0],
    for exponents below about -745, is not modelled, so nothing below
    relies on a density far from the ridge being different from zero. *)
Definition density (c : Config) (i j k : R) : R :=
  exp (- ((y c - i) ^ 2) / (2 * sig c)) * exp (- ((0 - i + j + k) ^ 2) / (2 * sig_e c)).

Definition meshgrid_g (c : Config) (n : nat) : arr3 * arr3 * arr3 :=
  meshgrid3 (linspace (a_1 c) (b_1 c) n) (linspace (a_2 c) (b_2 c) n)
            (linspace (a_3 c) (b_3 c) n).

Definition X1_g (c : Config) (n : nat) : arr3 := fst (fst (meshgrid_g c n)).
Definition X2_g (c : Config) (n : nat) : arr3 := snd (fst (meshgrid_g c n)).
Definition X3_g (c : Config) (n : nat) : arr3 := snd (meshgrid_g c n).

(** The grid points in the order the loop visits them. *)
Definition grid_points (c : Config) (n : nat) : list (R * R * R) :=
  zip3 (flatten3 (X1_g c n)) (flatten3 (X2_g c n)) (flatten3 (X3_g c n)).

(** [P_] after the loop: one [append] per grid point. *)
Definition P_ (c : Config) (n : nat) : list R :=
  fold_left (fun acc p => let '(i, j, k) := p in acc ++ [density c i j k])
            (grid_points c n) [].

Definition meshgrid_c (c : Config) (n : nat) : arr2 * arr2 :=
  meshgrid2 (linspace (a_2 c) (b_2 c) n) (linspace (a_3 c) (b_3 c) n).

Definition X2_c (c : Config) (n : nat) : arr2 := fst (meshgrid_c c n).
Definition X3_c (c : Config) (n : nat) : arr2 := snd (meshgrid_c c n).

(** [np.trapezoid(np.array(P_).reshape(X1_g.shape).T, x=X1_g, axis=1)] *)
Definition P_x2x3 (c : Config) (n : nat) : arr2 :=
  trapezoid_3d_axis1 (transpose3 (reshape3 (shape3 (X1_g c n)) (P_ c n))) (X1_g c n).

Definition P_E_trapz_n (c : Config) (n : nat) : R :=
  trapezoid1
    (trapezoid_2d_axis1 (P_x2x3 c n) (X2_c c n))
    (linspace (a_3 c) (b_3 c) n).

Definition P_E_trapz (c : Config) : R := P_E_trapz_n c grid_pts.

(** The nested one-dimensional rule in the words of the specification:
    for every [x3] and [x2] integrate the density over [x1], then the
    result over [x2], then over [x3], each time against the grid of the
    axis that is eliminated. *)
Definition nested_trapezoid (c : Config) (n : nat) : R :=
  let g1 := linspace (a_1 c) (b_1 c) n in
  let g2 := linspace (a_2 c) (b_2 c) n in
  let g3 := linspace (a_3 c) (b_3 c) n in
  trapezoid1
    (map (fun x3 =>
            trapezoid1
              (map (fun x2 => trapezoid1 (map (fun x1 => density c x1 x2 x3) g1) g1) g2)
              g2)
         g3)
    g3.

(** ** MCMC cell: the sampling loop *)

Definition iterations : nat := Z.to_nat 1500000.

Definition x0 (c : Config) : vec :=
  mkvec PyList [a_1 c + (b_1 c - a_1 c) / 2;
                a_2 c + (b_2 c - a_2 c) / 2;
                a_3 c + (b_3 c - a_3 c) / 2].

(** [[np.random.uniform(i-0.29, i+0.29) for i in xi]] *)
Fixpoint propose (xs : list R) (g : RandomState) : list R * RandomState :=
  match xs with
  | [] => ([], g)
  | x :: xs' =>
      let (v, g1) := uniform (x - 0.29) (x + 0.29) g in
      let (vs, g2) := propose xs' g1 in
      (v :: vs, g2)
  end.

(** The variables the loop updates. *)
Record chain : Type := mkchain {
  xi : vec;
  samp_res : list (list R);
  rng : RandomState
}.

(** [np.log(u) < min(0, p_x-p_x_prev)] *)
Definition accept (u p_x p_x_prev : R) : bool :=
  ext_ltb (Py.log u) (Py.min 0 (p_x - p_x_prev)).

(** One pass through the loop body. *)
Definition mcmc_step (c : Config) (s : chain) : outcome chain :=
  let (u, g1) := uniform 0 1 (rng s) in
  let (cand, g2) := propose (elems (xi s)) g1 in
  let sel_x := mkvec NdArray cand in
  p_x_prev <- log_prob c (xi s) ;;
  p_x <- log_prob c sel_x ;;
  if accept u p_x p_x_prev then
    Ok {| xi := sel_x; samp_res := samp_res s ++ [elems sel_x]; rng := g2 |}
  else
    Ok {| xi := xi s; samp_res := samp_res s ++ [elems (xi s)]; rng := g2 |}.

(** [for i in range(n)] *)
Fixpoint mcmc_loop (c : Config) (n : nat) (s : chain) : outcome chain :=
  match n with
  | O => Ok s
  | S n' => s' <- mcmc_step c s ;; mcmc_loop c n' s'
  end.

Definition mcmc_init (c : Config) (g : RandomState) : chain :=
  {| xi := x0 c; samp_res := []; rng := g |}.

(** The whole cell. *)
Definition mcmc (c : Config) (g : RandomState) : outcome chain :=
  mcmc_loop c iterations (mcmc_init c g).

(** ** Analytical cell *)

Definition term1 (c : Config) : R := 1 / sqrt (2 * PI * sig c ^ 2).
Definition term2 (c : Config) : R := 1 / sqrt (2 * PI * sig_e c ^ 2).
Definition term3 (c : Config) (j k : R) : R := - ((j + k) ^ 2) / (2 * sig_e c ^ 2).
Definition term4 (c : Config) : R := - (y c ^ 2) / (2 * sig c ^ 2).
Definition term5 (c : Config) : R :=
  sqrt (PI / ((1 / (2 * sig c ^ 2)) + (1 / (2 * sig_e c ^ 2)))).
Definition term6 (c : Config) (j k : R) : R :=
  (((y c / (sig c ^ 2)) + ((j + k) / (sig_e c ^ 2))) ^ 2)
  / (4 * ((1 / (2 * sig c ^ 2)) + (1 / (2 * sig_e c ^ 2)))).

(** The value appended for the point [(j, k)], for [sig] and [sig_e]
    different from zero (all six terms are then finite and the three
    logarithms have positive arguments). *)
Definition analytical (c : Config) (j k : R) : R :=
  ln (term1 c) + ln (term2 c) + term3 c j k + term4 c + ln (term5 c) + term6 c j k.

(** ** Statements of the specification, in its own words *)

(** The log posterior as the specification writes it, with [sigma = sig]
    and [sigma_e = sig_e]. *)
Definition spec_log_posterior (c : Config) (x1 x2 x3 : R) : R :=
  - ((y c - x1) ^ 2) / (2 * sig c ^ 2) - ((x1 - x2 - x3) ^ 2) / (2 * sig_e c ^ 2).

(** The closed form [logC] as the specification writes it. *)
Definition spec_logC (x2 x3 y sigma sigma_e : R) : R :=
  let s := x2 + x3 in
  - 0.5 * ln (2 * PI * sigma ^ 2) - 0.5 * ln (2 * PI * sigma_e ^ 2)
  - s ^ 2 / (2 * sigma_e ^ 2) - y ^ 2 / (2 * sigma ^ 2)
  + 0.5 * ln (PI / (1 / (2 * sigma ^ 2) + 1 / (2 * sigma_e ^ 2)))
  + ((y / sigma ^ 2 + s / sigma_e ^ 2) ^ 2)
    / (4 * (1 / (2 * sigma ^ 2) + 1 / (2 * sigma_e ^ 2))).

(** A configuration the specification calls degenerate. *)
Definition degenerate (c : Config) : Prop :=
  sig c <= 0 \/ sig_e c <= 0 \/
  a_1 c >= b_1 c \/ a_2 c >= b_2 c \/ a_3 c >= b_3 c.

(** A run is rejected when it ends in an exception. *)
Definition rejected {A : Type} (o : outcome A) : Prop := exists e, o = Raised e.

(** A flow is strictly inside the interval the test of [log_prob] uses. *)
Definition inside (x : R) : bool := Rltb 0 x && Rltb x 3.

(** A recorded state lies in the box of the configuration. *)
Definition in_box (c : Config) (x : list R) : Prop :=
  match x with
  | [x1; x2; x3] =>
      a_1 c <= x1 <= b_1 c /\ a_2 c <= x2 <= b_2 c /\ a_3 c <= x3 <= b_3 c
  | _ => False
  end.

(** The notebook's model values with a narrower configured box: used to
    show what the test of [log_prob] does not depend on. *)
Definition narrow_box : Config :=
  {| sig := 0.1; sig_e := 0.0001; y := 1.5;
     a_1 := 1; a_2 := 1; a_3 := 1;
     b_1 := 2; b_2 := 2; b_3 := 2 |}.

(** The float [log_prob] returns for three flows when its divisions
    succeed. *)
Definition log_prob_val (c : Config) (x1 x2 x3 : R) : R :=
  if in_support [x1; x2; x3] then log_density c x1 x2 x3 else sentinel.

(** The three-dimensional array of the values of [f] on the grid, laid
    out like the arrays of [meshgrid3]: first index along [g2], second
    along [g1], third along [g3]. *)
Definition grid_array {A : Type} (f : R -> R -> R -> A) (g1 g2 g3 : list R)
  : list (list (list A)) :=
  map (fun x2 => map (fun x1 => map (fun x3 => f x1 x2 x3) g3) g1) g2.

(** The [k]-th point of [linspace start stop num]. *)
Definition linspace_pt (start stop : R) (num k : nat) : R :=
  start + INR k * ((stop - start) / INR (num - 1)).

(** The integral over [x1] that [P_x2x3] holds for the point [(x2, x3)]:
    the one-dimensional rule over the [x1] grid. *)
Definition marginal_x1 (c : Config) (n : nat) (x2 x3 : R) : R :=
  trapezoid1 (map (fun x1 => density c x1 x2 x3) (linspace (a_1 c) (b_1 c) n))
             (linspace (a_1 c) (b_1 c) n).

(** A state of three flows that passes the test of [log_prob]. *)
Definition open_state (v : vec) : Prop :=
  exists x1 x2 x3, elems v = [x1; x2; x3] /\ in_support [x1; x2; x3] = true.

(** A sequence of exactly three flows. *)
Definition vec3 (v : vec) : Prop := exists x1 x2 x3, elems v = [x1; x2; x3].

(** The proposal [sel_x] and the draw [u] of the iteration that starts in
    state [s]. *)
Definition draw_u (s : chain) : R := fst (uniform 0 1 (rng s)).
Definition draw_sel_x (s : chain) : vec :=
  mkvec NdArray (fst (propose (elems (xi s)) (snd (uniform 0 1 (rng s))))).

Definition draw_rng (s : chain) : RandomState :=
  snd (propose (elems (xi s)) (snd (uniform 0 1 (rng s)))).

(** A run of raw draws in which the sixth [u] is 0: four draws per
    iteration ([u], then one per coordinate); 1/2 keeps a coordinate,
    1/64 lowers it by 0.2809375. *)
Definition leak_draws : list R :=
  [1/2; 1/2; 1/2; 1/64;
   1/2; 1/2; 1/2; 1/64;
   1/2; 1/2; 1/2; 1/64;
   1/2; 1/2; 1/2; 1/64;
   1/2; 1/2; 1/2; 1/64;
   0;   1/2; 1/2; 1/64].

Definition leak_samples (n : nat) : R := nth n leak_draws (1/2).

Definition leak_rng : RandomState := {| samples := leak_samples; pos := 0 |}.

(** The six states that run records. *)
Definition leak_chain : list (list R) :=
  [[1.5; 1.5; 1.2190625]; [1.5; 1.5; 0.938125]; [1.5; 1.5; 0.6571875];
   [1.5; 1.5; 0.37625]; [1.5; 1.5; 0.0953125]; [1.5; 1.5; -0.185625]].

(** A generator all of whose draws are 1/2. *)
Definition half_rng : RandomState := {| samples := fun _ => 1/2; pos := 0 |}.

(** A generator whose next draw is 0. *)
Definition zero_rng : RandomState := {| samples := fun _ => 0; pos := 0 |}.

(** A configuration that is degenerate in every way the specification
    lists, with no zero among [sig] and [sig_e]. *)
Definition degenerate_cfg : Config :=
  {| sig := -0.1; sig_e := -0.0001; y := 1.5;
     a_1 := 3; a_2 := 3; a_3 := 3;
     b_1 := 0; b_2 := 0; b_3 := 0 |}.

(** ** Trapezoidal cell: the normalisation [P_ = np.array(P_)/P_E_trapz] *)

(** Division of a numpy array by a scalar: a zero divisor turns every
    entry into [inf] or [nan] under a warning. *)
Definition array_div (l : list R) (z : R) : outcome (list R) :=
  match l with
  | [] => Ok []
  | _ :: _ => if Req_dec_T z 0 then NonFinite else Ok (map (fun p => p / z) l)
  end.

(** [P_] after the cell. *)
Definition P_normalised_n (c : Config) (n : nat) : outcome (list R) :=
  array_div (P_ c n) (P_E_trapz_n c n).

Definition P_normalised (c : Config) : outcome (list R) := P_normalised_n c grid_pts.

(** ** Plot cell: the marginals handed to the plots *)

(** [np.trapezoid(y, x=x, axis=0)] for three-dimensional [y] and [x] of one
    shape: differences and sums of consecutive slabs, summed over the
    slabs. *)
Definition trapezoid_3d_axis0 (y x : arr3) : arr2 :=
  let d := map2 (map2 (map2 Rminus)) (tl x) (removelast x) in
  let s := map2 (map2 (map2 Rplus)) (tl y) (removelast y) in
  let p := map2 (map2 (map2 (fun d s => d * s / 2))) d s in
  tab (length (hd [] y))
      (fun j => tab (length (hd [] (hd [] y)))
                    (fun b => Rsum (map (fun slab => nth b (nth j slab []) 0) p))).

(** [P.reshape(X1_g.shape).T] for a flat array [P]. *)
Definition field_T (c : Config) (n : nat) (P : list R) : arr3 :=
  transpose3 (reshape3 (shape3 (X1_g c n)) P).

(** First plot: [np.trapezoid(P_.reshape(X1_g.shape).T, x=X1_g, axis=1)],
    drawn over [X2_, X3_ = np.meshgrid(linspace(a_2,b_2), linspace(a_3,b_3))]. *)
Definition marginal_23 (c : Config) (n : nat) (P : list R) : arr2 :=
  trapezoid_3d_axis1 (field_T c n P) (X1_g c n).

(** Second plot:
    [np.trapezoid(np.trapezoid(P_.reshape(X1_g.shape).T, x=X2_g, axis=0), x=X2_c, axis=1)],
    drawn over [linspace(a_1, b_1, grid_pts)]. *)
Definition marginal_1 (c : Config) (n : nat) (P : list R) : list R :=
  trapezoid_2d_axis1 (trapezoid_3d_axis0 (field_T c n P) (X2_g c n)) (X2_c c n).

(** Third plot:
    [np.trapezoid(np.trapezoid(P_.reshape(X1_g.shape).T, x=X1_g, axis=1), x=X3_c, axis=0)],
    drawn over [linspace(a_2, b_2, grid_pts)]. *)
Definition marginal_2 (c : Config) (n : nat) (P : list R) : list R :=
  trapezoid_2d_axis0 (marginal_23 c n P) (X3_c c n).

(** Fourth plot:
    [np.trapezoid(np.trapezoid(P_.reshape(X1_g.shape).T, x=X1_g, axis=1), x=X2_c, axis=1)],
    drawn over [linspace(a_3, b_3, grid_pts)]. *)
Definition marginal_3 (c : Config) (n : nat) (P : list R) : list R :=
  trapezoid_2d_axis1 (marginal_23 c n P) (X2_c c n).

(** The one-dimensional rule over the grid of one axis, for a function of
    the coordinate. *)
Definition trapz_over (f : R -> R) (g : list R) : R := trapezoid1 (map f g) g.

(** The sum of the trapezoid means [(u (j+1) + u j) / 2] over the [n - 1]
    cells of a grid of [n] points: the rule for unit spacing. *)
Definition unit_trapz (n : nat) (u : nat -> R) : R :=
  Rsum (tab (n - 1) (fun j => (u (S j) + u j) / 2)).

(** The nested unit-spacing sum of the density over the grid. *)
Definition unit_sum (c : Config) (n : nat) : R :=
  unit_trapz n (fun k =>
    unit_trapz n (fun i =>
      unit_trapz n (fun j =>
        density c (linspace_pt (a_1 c) (b_1 c) n j)
                  (linspace_pt (a_2 c) (b_2 c) n i)
                  (linspace_pt (a_3 c) (b_3 c) n k)))).

(** ** Analytical cell: the loop and the array handed to the plot *)

(** [A.shape] and [A.flatten()] of a two-dimensional array, and
    [np.array(l).reshape(s)] for two dimensions. *)
Definition shape2 (A : arr2) : nat * nat := (length A, length (hd [] A)).
Definition flatten2 (A : arr2) : list R := concat A.
Definition reshape2 (s : nat * nat) (l : list R) : arr2 :=
  let '(d0, d1) := s in chunks d0 d1 l.

Definition meshgrid_a (c : Config) (n : nat) : arr2 * arr2 :=
  meshgrid2 (linspace (a_2 c) (b_2 c) n) (linspace (a_3 c) (b_3 c) n).

(** [zip(X2.flatten(), X3.flatten())] *)
Definition analytical_points (c : Config) (n : nat) : list (R * R) :=
  combine (flatten2 (fst (meshgrid_a c n))) (flatten2 (snd (meshgrid_a c n))).

(** [P_] after the loop of the analytical cell. *)
Definition analytical_P_ (c : Config) (n : nat) : list R :=
  fold_left (fun acc p => let '(j, k) := p in acc ++ [analytical c j k])
            (analytical_points c n) [].

(** [np.exp(np.array(P_).reshape(X2.shape))] *)
Definition analytical_field (c : Config) (n : nat) : arr2 :=
  map (map exp) (reshape2 (shape2 (fst (meshgrid_a c n))) (analytical_P_ c n)).

(** The red line of the plots: [np.linspace(a_2, y, m)] against
    [-1.0*np.linspace(a_2, y, m)+y]. *)
Definition ridge_line (c : Config) (m : nat) : list (R * R) :=
  combine (linspace (a_2 c) (y c) m)
          (map (fun t => -1.0 * t + y c) (linspace (a_2 c) (y c) m)).


(** A box whose [x2] and [x3] widths differ. *)
Definition wide_box : Config :=
  {| sig := 0.1; sig_e := 0.0001; y := 1.5;
     a_1 := 0; a_2 := 0; a_3 := 0;
     b_1 := 3; b_2 := 3; b_3 := 6 |}.

(** A configuration with [sig = 0]. *)
Definition zero_sig : Config :=
  {| sig := 0; sig_e := 0.0001; y := 1.5;
     a_1 := 0; a_2 := 0; a_3 := 0;
     b_1 := 3; b_2 := 3; b_3 := 3 |}.

(** Two states are one proposal apart: no coordinate moved by more than
    0.3, the half-width 0.29 of the proposal with room for the rounding
    of the float sum. *)
Definition close (p q : list R) : Prop :=
  Forall2 (fun a b => a - 0.3 <= b <= a + 0.3) p q.

(** The measurement is in the range where the squares of [log_prob]
    cannot overflow. *)
Definition moderate_y (c : Config) : Prop := - 1e150 <= y c <= 1e150.

(** Every number of the configuration cell is in that range: the start
    point and the bounds of every proposal are finite floats, and no
    square of [log_prob] overflows. *)
Definition moderate (c : Config) : Prop :=
  moderate_y c /\
  (- 1e150 <= a_1 c <= 1e150 /\ - 1e150 <= a_2 c <= 1e150 /\ - 1e150 <= a_3 c <= 1e150) /\
  (- 1e150 <= b_1 c <= 1e150 /\ - 1e150 <= b_2 c <= 1e150 /\ - 1e150 <= b_3 c <= 1e150).

(** The notebook's configuration with a measurement of [1e200]. *)
Definition overflow_cfg : Config :=
  {| sig := 0.1; sig_e := 0.0001; y := 1e200;
     a_1 := 0; a_2 := 0; a_3 := 0;
     b_1 := 3; b_2 := 3; b_3 := 3 |}.

(** A chain every state of which is one proposal away from the one
    before, starting next to [prev]. *)
Fixpoint walk (prev : list R) (l : list (list R)) : Prop :=
  match l with
  | [] => True
  | x :: l' => close prev x /\ walk x l'
  end.

(** A state of the sampler outside the box. *)
Definition outside_state : chain :=
  {| xi := mkvec NdArray [1.5; 1.5; -0.185625]; samp_res := leak_chain; rng := half_rng |}.

(** * Proofs *)

(** ** Basic facts about the primitives *)

Lemma Rltb_true (x y : R) : Rltb x y = true <-> x < y.
Proof. unfold Rltb. destruct (Rlt_dec x y); split; intros; try easy. Qed.

Lemma Rltb_false (x y : R) : Rltb x y = false <-> y <= x.
Proof.
  unfold Rltb. destruct (Rlt_dec x y); split; intros; try easy; lra.
Qed.

Lemma min_Rmin (a b : R) : Py.min a b = Rmin a b.
Proof.
  unfold Py.min, Rmin, Rltb.
  destruct (Rlt_dec b a), (Rle_dec a b); try reflexivity; lra.
Qed.

Lemma truediv_ok (k : seq_kind) (num den : R) :
  den <> 0 -> truediv k num den = Ok (num / den).
Proof. intros H. unfold truediv. destruct (Req_dec_T den 0); easy. Qed.

Lemma float_overflow_bounds : 1e308 < float_overflow < 1e309.
Proof. unfold float_overflow. split; lra. Qed.

Lemma pow2_ok (k : seq_kind) (x : R) :
  x ^ 2 < float_overflow -> pow2 k x = Ok (x ^ 2).
Proof. intros H. unfold pow2. now rewrite (proj2 (Rltb_true _ _) H). Qed.

Lemma pow2_overflow (x : R) :
  float_overflow <= x ^ 2 -> pow2 PyList x = Raised OverflowError.
Proof. intros H. unfold pow2. now rewrite (proj2 (Rltb_false _ _) H). Qed.

(** The two squares of [log_prob] on flows strictly between 0 and 3. *)
Lemma pow2_residual (c : Config) (k : seq_kind) (x : R) :
  moderate_y c -> 0 < x < 3 -> pow2 k (y c - x) = Ok ((y c - x) ^ 2).
Proof.
  intros [H1 H2] Hx. apply pow2_ok. pose proof float_overflow_bounds. nra.
Qed.

Lemma pow2_balance (k : seq_kind) (x1 x2 x3 : R) :
  0 < x1 < 3 -> 0 < x2 < 3 -> 0 < x3 < 3 ->
  pow2 k (0 - x1 + x2 + x3) = Ok ((0 - x1 + x2 + x3) ^ 2).
Proof.
  intros H1 H2 H3. apply pow2_ok. pose proof float_overflow_bounds. nra.
Qed.

Lemma notebook_moderate_y : moderate_y notebook.
Proof. unfold moderate_y. cbn [y notebook]. lra. Qed.

Lemma inside_true (x : R) : inside x = true <-> 0 < x < 3.
Proof.
  unfold inside. rewrite andb_true_iff, !Rltb_true. reflexivity.
Qed.

Lemma inside_false (x : R) : inside x = false <-> x <= 0 \/ 3 <= x.
Proof.
  unfold inside. rewrite andb_false_iff, !Rltb_false. reflexivity.
Qed.

Lemma in_support3 (x1 x2 x3 : R) :
  in_support [x1; x2; x3] = inside x1 && inside x2 && inside x3.
Proof.
  unfold in_support, Py.sum. cbn [map list_sum].
  fold (inside x1) (inside x2) (inside x3).
  destruct (inside x1), (inside x2), (inside x3); reflexivity.
Qed.

Lemma in_support3_true (x1 x2 x3 : R) :
  in_support [x1; x2; x3] = true <-> (0 < x1 < 3 /\ 0 < x2 < 3 /\ 0 < x3 < 3).
Proof.
  rewrite in_support3, !andb_true_iff, !inside_true. tauto.
Qed.

Lemma in_support3_false (x1 x2 x3 : R) :
  in_support [x1; x2; x3] = false <->
  ((x1 <= 0 \/ 3 <= x1) \/ (x2 <= 0 \/ 3 <= x2) \/ (x3 <= 0 \/ 3 <= x3)).
Proof.
  rewrite in_support3, !andb_false_iff, !inside_false. tauto.
Qed.

(** Inside the support, with non-zero denominators, [log_prob] returns
    the log density; outside, the sentinel. *)
Lemma log_prob_branch (c : Config) (k : seq_kind) (x1 x2 x3 : R) :
  in_support [x1; x2; x3] = true ->
  log_prob c (mkvec k [x1; x2; x3]) = prob_branch c k x1 x2 x3.
Proof.
  intros Hin. unfold log_prob, prob_branch. cbn [elems kind]. rewrite Hin.
  unfold getitem. cbn [elems nth_error bind].
  destruct (pow2 k (y c - x1)) as [s1| |]; cbn [bind]; reflexivity.
Qed.

Lemma prob_branch_ok (c : Config) (k : seq_kind) (x1 x2 x3 : R) :
  sig c <> 0 -> sig_e c <> 0 -> moderate_y c ->
  0 < x1 < 3 -> 0 < x2 < 3 -> 0 < x3 < 3 ->
  prob_branch c k x1 x2 x3 = Ok (log_density c x1 x2 x3).
Proof.
  intros Hs He Hy H1 H2 H3. unfold prob_branch.
  rewrite (pow2_residual c k x1 Hy H1). cbn [bind].
  rewrite truediv_ok by lra. cbn [bind].
  rewrite (pow2_balance k x1 x2 x3 H1 H2 H3). cbn [bind].
  rewrite truediv_ok by lra. reflexivity.
Qed.

Lemma log_prob_inside (c : Config) (k : seq_kind) (x1 x2 x3 : R) :
  sig c <> 0 -> sig_e c <> 0 -> moderate_y c ->
  in_support [x1; x2; x3] = true ->
  log_prob c (mkvec k [x1; x2; x3]) = Ok (log_density c x1 x2 x3).
Proof.
  intros Hs He Hy Hin. rewrite (log_prob_branch c k x1 x2 x3 Hin).
  apply in_support3_true in Hin. destruct Hin as (H1 & H2 & H3).
  now apply prob_branch_ok.
Qed.

Lemma log_prob_outside (c : Config) (par : vec) :
  in_support (elems par) = false -> log_prob c par = Ok sentinel.
Proof. intros H. unfold log_prob. rewrite H. reflexivity. Qed.

Lemma notebook_sig : sig notebook <> 0 /\ sig_e notebook <> 0.
Proof. cbn. lra. Qed.

Lemma log_prob_three (c : Config) (k : seq_kind) (x1 x2 x3 : R) :
  sig c <> 0 -> sig_e c <> 0 -> moderate_y c ->
  log_prob c (mkvec k [x1; x2; x3]) = Ok (log_prob_val c x1 x2 x3).
Proof.
  intros Hs He Hy. unfold log_prob_val.
  destruct (in_support [x1; x2; x3]) eqn:Hin.
  - now apply log_prob_inside.
  - now apply log_prob_outside.
Qed.

Lemma Ok_inj {A : Type} (a b : A) : Ok a = Ok b -> a = b.
Proof. intros H. now injection H. Qed.

(** ** The value of [log_prob] *)

(** C1, as the code has it: for flows strictly inside the bounds
    [log_prob] returns [-((y - x1)^2)/(2*sig) - ((x1 - x2 - x3)^2)/(2*sig_e)],
    dividing by twice the configured values [sig = 0.1] and
    [sig_e = 0.0001] themselves, not by twice their squares; when some
    flow is on or outside a bound it returns the sentinel [-1e+120] and
    raises nothing. *)
Theorem log_prob_value (k : seq_kind) (x1 x2 x3 : R) :
  (a_1 notebook < x1 < b_1 notebook /\
   a_2 notebook < x2 < b_2 notebook /\
   a_3 notebook < x3 < b_3 notebook ->
   log_prob notebook (mkvec k [x1; x2; x3]) =
   Ok (- ((y notebook - x1) ^ 2) / (2 * sig notebook)
       - ((x1 - x2 - x3) ^ 2) / (2 * sig_e notebook)))
  /\
  ((x1 <= a_1 notebook \/ b_1 notebook <= x1) \/
   (x2 <= a_2 notebook \/ b_2 notebook <= x2) \/
   (x3 <= a_3 notebook \/ b_3 notebook <= x3) ->
   log_prob notebook (mkvec k [x1; x2; x3]) = Ok sentinel).
Proof.
  split; intros H.
  - rewrite log_prob_inside.
    + f_equal. unfold log_density. cbn [y sig sig_e notebook]. lra.
    + cbn; lra.
    + cbn; lra.
    + exact notebook_moderate_y.
    + apply in_support3_true. cbn in H. lra.
  - apply log_prob_outside. cbn [elems].
    apply in_support3_false. cbn in H. lra.
Qed.

Lemma log_prob_value_witness :
  log_prob notebook (mkvec NdArray [1; 1; 1]) =
    Ok (- ((y notebook - 1) ^ 2) / (2 * sig notebook)
        - ((1 - 1 - 1) ^ 2) / (2 * sig_e notebook))
  /\ log_prob notebook (mkvec NdArray [1; 1; 4]) = Ok sentinel.
Proof.
  split.
  - apply (proj1 (log_prob_value NdArray 1 1 1)). cbn. lra.
  - apply (proj2 (log_prob_value NdArray 1 1 4)). cbn. lra.
Defined.

(** C1 as the specification states it fails: at the interior point
    [(1, 1, 1)] the code does not return the value with [2*sigma^2] and
    [2*sigma_e^2] in the denominators. *)
Lemma log_prob_not_spec_formula :
  (a_1 notebook < 1 < b_1 notebook /\
   a_2 notebook < 1 < b_2 notebook /\
   a_3 notebook < 1 < b_3 notebook) /\
  log_prob notebook (mkvec NdArray [1; 1; 1]) <>
  Ok (spec_log_posterior notebook 1 1 1).
Proof.
  split; [cbn; lra|].
  rewrite log_prob_inside.
  - intros H. apply Ok_inj in H. revert H.
    unfold log_density, spec_log_posterior. cbn [y sig sig_e notebook]. lra.
  - cbn; lra.
  - cbn; lra.
  - exact notebook_moderate_y.
  - apply in_support3_true. lra.
Qed.

Lemma sum_le_length (bs : list bool) : (Py.sum bs <= length bs)%nat.
Proof.
  unfold Py.sum. induction bs as [|b bs IH]; [cbn; lia|].
  change (Nat.b2n b + list_sum (map Nat.b2n bs) <= S (length bs))%nat.
  destruct b; cbn [Nat.b2n]; lia.
Qed.

Lemma in_support_length (xs : list R) :
  in_support xs = true -> (3 <= length xs)%nat.
Proof.
  unfold in_support. intros H. apply Nat.eqb_eq in H.
  pose proof (sum_le_length (map (fun x => Rltb 0 x && Rltb x 3) xs)) as L.
  rewrite length_map in L. lia.
Qed.

Lemma log_prob_first_three (c : Config) (k : seq_kind) (p0 p1 p2 : R) (rest : list R) :
  in_support (p0 :: p1 :: p2 :: rest) = true ->
  log_prob c (mkvec k (p0 :: p1 :: p2 :: rest)) = prob_branch c k p0 p1 p2.
Proof.
  intros Hin. unfold log_prob, prob_branch. cbn [elems kind]. rewrite Hin.
  unfold getitem. cbn [elems nth_error bind].
  destruct (pow2 k (y c - p0)) as [s1| |]; cbn [bind]; reflexivity.
Qed.

Lemma log_prob_same_model (c c' : Config) (par : vec) :
  sig c' = sig c -> sig_e c' = sig_e c -> y c' = y c ->
  log_prob c' par = log_prob c par.
Proof. intros Hs He Hy. unfold log_prob. now rewrite Hs, He, Hy. Qed.

Lemma log_density_not_sentinel (c : Config) (x1 x2 x3 : R) :
  sig c = 0.1 -> sig_e c = 0.0001 -> y c = 1.5 ->
  0 < x1 < 3 -> 0 < x2 < 3 -> 0 < x3 < 3 ->
  log_density c x1 x2 x3 <> sentinel.
Proof.
  intros Hs He Hy H1 H2 H3. unfold log_density, sentinel. rewrite Hs, He, Hy.
  assert (A : (1.5 - x1) ^ 2 <= 3) by nra.
  assert (B : (0 - x1 + x2 + x3) ^ 2 <= 36) by nra.
  lra.
Qed.

(** C10, as the code has it: the test of [log_prob] compares every entry
    with the literals 0 and 3 and counts the entries strictly between
    them.  On three flows [log_prob] takes the sentinel branch exactly
    when some flow is not strictly between 0 and 3 and the branch of the
    formula otherwise; with the notebook's [sig], [sig_e] and [y] the
    formula never gives the sentinel, so the sentinel is returned exactly
    then.  On a sequence of any length the sentinel branch is taken
    exactly when the count differs from 3, and the formula is applied to
    the first three entries otherwise.  Two configurations that differ
    only in [a_1 .. a_3] and [b_1 .. b_3] give the same result on every
    input. *)
Theorem log_prob_test_literal_bounds (c c' : Config) (par : vec) :
  sig c' = sig c -> sig_e c' = sig_e c -> y c' = y c ->
  (forall x1 x2 x3, elems par = [x1; x2; x3] ->
     (0 < x1 < 3 /\ 0 < x2 < 3 /\ 0 < x3 < 3 ->
      log_prob c par = prob_branch c (kind par) x1 x2 x3) /\
     (~ (0 < x1 < 3 /\ 0 < x2 < 3 /\ 0 < x3 < 3) ->
      log_prob c par = Ok sentinel) /\
     (sig c = 0.1 -> sig_e c = 0.0001 -> y c = 1.5 ->
      (log_prob c par = Ok sentinel <->
       ~ (0 < x1 < 3 /\ 0 < x2 < 3 /\ 0 < x3 < 3))))
  /\ (Py.sum (map inside (elems par)) <> 3%nat -> log_prob c par = Ok sentinel)
  /\ (Py.sum (map inside (elems par)) = 3%nat ->
      exists p0 p1 p2 rest, elems par = p0 :: p1 :: p2 :: rest /\
        log_prob c par = prob_branch c (kind par) p0 p1 p2)
  /\ log_prob c' par = log_prob c par.
Proof.
  intros Hs He Hy. destruct par as [k xs]. cbn [elems kind].
  split; [|split; [|split]].
  - intros x1 x2 x3 ->.
    assert (Hin : 0 < x1 < 3 /\ 0 < x2 < 3 /\ 0 < x3 < 3 ->
                  log_prob c (mkvec k [x1; x2; x3]) = prob_branch c k x1 x2 x3).
    { intros H. apply log_prob_branch. now apply in_support3_true. }
    assert (Hout : ~ (0 < x1 < 3 /\ 0 < x2 < 3 /\ 0 < x3 < 3) ->
                   log_prob c (mkvec k [x1; x2; x3]) = Ok sentinel).
    { intros H. apply log_prob_outside. cbn [elems].
      destruct (in_support [x1; x2; x3]) eqn:E; [|reflexivity].
      apply in_support3_true in E. contradiction. }
    split; [exact Hin|]. split; [exact Hout|].
    intros Es Ee Ey. split; [|exact Hout].
    intros H Hall. rewrite (Hin Hall) in H.
    destruct Hall as (H1 & H2 & H3).
    rewrite prob_branch_ok in H; try assumption.
    + apply Ok_inj in H. revert H. now apply log_density_not_sentinel.
    + rewrite Es. lra.
    + rewrite Ee. lra.
    + unfold moderate_y. rewrite Ey. lra.
  - intros H. apply log_prob_outside. cbn [elems]. unfold in_support.
    now apply Nat.eqb_neq.
  - intros H.
    assert (Hin : in_support xs = true) by (unfold in_support; now apply Nat.eqb_eq).
    pose proof (in_support_length xs Hin) as L.
    destruct xs as [|p0 [|p1 [|p2 rest]]]; cbn [length] in L; try lia.
    exists p0, p1, p2, rest. split; [reflexivity|].
    now apply log_prob_first_three.
  - now apply log_prob_same_model.
Qed.

Lemma log_prob_test_literal_bounds_witness :
  log_prob narrow_box (mkvec NdArray [2.5; 1.5; 1.5]) =
  log_prob notebook (mkvec NdArray [2.5; 1.5; 1.5]).
Proof.
  apply (log_prob_test_literal_bounds notebook narrow_box
           (mkvec NdArray [2.5; 1.5; 1.5]) eq_refl eq_refl eq_refl).
Defined.

(** C10 as the specification states it fails on inputs that are not
    three flows: both entries of [[1, 2]] lie strictly between 0 and 3,
    yet the sentinel branch is taken; and [[5, 1, 1, 1]] has an entry
    outside the interval, yet the branch of the formula is taken, on its
    first three entries. *)
Lemma log_prob_other_lengths :
  (forall x, In x [1; 2] -> 0 < x < 3) /\
  log_prob notebook (mkvec PyList [1; 2]) = Ok sentinel /\
  ~ 0 < 5 < 3 /\
  log_prob notebook (mkvec PyList [5; 1; 1; 1]) = Ok (log_density notebook 5 1 1) /\
  log_density notebook 5 1 1 <> sentinel.
Proof.
  split; [|split; [|split; [|split]]].
  - intros x [<- |[<- |[]]]; lra.
  - apply log_prob_outside. cbn [elems]. unfold in_support. cbn [map].
    fold (inside 1) (inside 2).
    rewrite (proj2 (inside_true 1)), (proj2 (inside_true 2)) by lra. reflexivity.
  - lra.
  - rewrite log_prob_first_three.
    + unfold prob_branch.
      rewrite pow2_ok by (pose proof float_overflow_bounds; cbn [y notebook]; lra).
      cbn [bind]. rewrite truediv_ok by (cbn [sig notebook]; lra). cbn [bind].
      rewrite pow2_ok by (pose proof float_overflow_bounds; lra).
      cbn [bind]. rewrite truediv_ok by (cbn [sig_e notebook]; lra). reflexivity.
    + unfold in_support. cbn [map]. fold (inside 5) (inside 1).
      rewrite (proj2 (inside_true 1)) by lra.
      rewrite (proj2 (inside_false 5)) by lra. reflexivity.
  - unfold log_density, sentinel. cbn [y sig sig_e notebook]. lra.
Qed.

(** ** The sampling loop *)

Lemma uniform_eq (low high : R) (g : RandomState) :
  uniform low high g =
  (low + (high - low) * samples g (pos g),
   {| samples := samples g; pos := S (pos g) |}).
Proof. reflexivity. Qed.

Lemma propose3 (x1 x2 x3 : R) (g : RandomState) :
  propose [x1; x2; x3] g =
  ([x1 - 0.29 + (x1 + 0.29 - (x1 - 0.29)) * samples g (pos g);
    x2 - 0.29 + (x2 + 0.29 - (x2 - 0.29)) * samples g (S (pos g));
    x3 - 0.29 + (x3 + 0.29 - (x3 - 0.29)) * samples g (S (S (pos g)))],
   {| samples := samples g; pos := S (S (S (pos g))) |}).
Proof. reflexivity. Qed.

(** The loop body on a state of three flows, with the values of the
    proposal given up to equality of reals. *)
Lemma mcmc_step_values (c : Config) (s : chain) (x1 x2 x3 v1 v2 v3 : R) :
  sig c <> 0 -> sig_e c <> 0 -> moderate_y c ->
  elems (xi s) = [x1; x2; x3] ->
  v1 = x1 - 0.29 + (x1 + 0.29 - (x1 - 0.29)) * samples (rng s) (1 + pos (rng s)) ->
  v2 = x2 - 0.29 + (x2 + 0.29 - (x2 - 0.29)) * samples (rng s) (2 + pos (rng s)) ->
  v3 = x3 - 0.29 + (x3 + 0.29 - (x3 - 0.29)) * samples (rng s) (3 + pos (rng s)) ->
  mcmc_step c s =
  Ok (if accept (draw_u s) (log_prob_val c v1 v2 v3) (log_prob_val c x1 x2 x3)
      then {| xi := mkvec NdArray [v1; v2; v3];
              samp_res := samp_res s ++ [[v1; v2; v3]];
              rng := {| samples := samples (rng s); pos := 4 + pos (rng s) |} |}
      else {| xi := xi s;
              samp_res := samp_res s ++ [[x1; x2; x3]];
              rng := {| samples := samples (rng s); pos := 4 + pos (rng s) |} |}).
Proof.
  intros Hs He Hy Hx H1 H2 H3. cbn [Nat.add] in *.
  unfold mcmc_step, draw_u. rewrite uniform_eq, Hx, propose3.
  cbn [fst snd samples pos elems].
  rewrite <- H1, <- H2, <- H3.
  destruct (xi s) as [k xs] eqn:Hxi. cbn [elems] in Hx. subst xs.
  rewrite (log_prob_three c k) by assumption. cbn [bind].
  rewrite (log_prob_three c NdArray) by assumption. cbn [bind elems].
  destruct (accept _ _ _); reflexivity.
Qed.

Lemma accept_pos (u p_x p_x_prev : R) :
  0 < u -> (accept u p_x p_x_prev = true <-> ln u < Rmin 0 (p_x - p_x_prev)).
Proof.
  intros Hu. unfold accept, Py.log.
  destruct (Req_dec_T u 0) as [E|_]; [lra|].
  destruct (Rltb u 0) eqn:Hlt.
  - apply Rltb_true in Hlt. lra.
  - cbn [ext_ltb]. rewrite min_Rmin. apply Rltb_true.
Qed.

Lemma accept_zero (p_x p_x_prev : R) : accept 0 p_x p_x_prev = true.
Proof.
  unfold accept, Py.log. destruct (Req_dec_T 0 0) as [_|N]; [reflexivity|lra].
Qed.

Lemma ln_neg (u : R) : 0 < u < 1 -> ln u < 0.
Proof. intros [H0 H1]. rewrite <- ln_1. now apply ln_increasing. Qed.

Lemma accept_uphill (u p_x p_x_prev : R) :
  0 < u < 1 -> p_x_prev <= p_x -> accept u p_x p_x_prev = true.
Proof.
  intros Hu Hp. apply accept_pos; [lra|].
  rewrite Rmin_left by lra. now apply ln_neg.
Qed.

(** Every pass through the body ends normally when [sig] and [sig_e] are
    not zero and [y] is moderate; it appends one entry, consumes four
    draws and keeps three flows. *)
Lemma mcmc_step_ok (c : Config) (s : chain) :
  sig c <> 0 -> sig_e c <> 0 -> moderate_y c -> vec3 (xi s) ->
  exists s', mcmc_step c s = Ok s' /\ vec3 (xi s') /\
             samp_res s' = samp_res s ++ [elems (xi s')] /\
             (xi s' = draw_sel_x s \/ xi s' = xi s) /\
             samples (rng s') = samples (rng s) /\
             pos (rng s') = (4 + pos (rng s))%nat.
Proof.
  intros Hs He Hy (x1 & x2 & x3 & Hx).
  rewrite (mcmc_step_values c s x1 x2 x3 _ _ _ Hs He Hy Hx eq_refl eq_refl eq_refl).
  destruct (accept _ _ _); eexists; (split; [reflexivity|]); cbn [xi samp_res rng samples pos elems].
  - repeat split; try reflexivity.
    + now exists (x1 - 0.29 + (x1 + 0.29 - (x1 - 0.29)) * samples (rng s) (1 + pos (rng s))),
        (x2 - 0.29 + (x2 + 0.29 - (x2 - 0.29)) * samples (rng s) (2 + pos (rng s))),
        (x3 - 0.29 + (x3 + 0.29 - (x3 - 0.29)) * samples (rng s) (3 + pos (rng s))).
    + left. unfold draw_sel_x. rewrite uniform_eq, Hx, propose3. reflexivity.
  - repeat split; try reflexivity.
    + now exists x1, x2, x3.
    + now rewrite Hx.
    + now right.
Qed.

Lemma mcmc_loop_add (c : Config) (n m : nat) (s : chain) :
  mcmc_loop c (n + m) s = (s' <- mcmc_loop c n s ;; mcmc_loop c m s').
Proof.
  revert s. induction n as [|n IH]; intros s; cbn [Nat.add mcmc_loop bind].
  - reflexivity.
  - destruct (mcmc_step c s) as [s1| |]; cbn [bind]; [apply IH|reflexivity|reflexivity].
Qed.

(** The loop runs all its passes: [n] entries are appended to the chain
    and [4 * n] draws are consumed. *)
Lemma mcmc_loop_ok (c : Config) (n : nat) (s : chain) :
  sig c <> 0 -> sig_e c <> 0 -> moderate_y c -> vec3 (xi s) ->
  exists s' rest, mcmc_loop c n s = Ok s' /\ vec3 (xi s') /\
                  samp_res s' = samp_res s ++ rest /\ length rest = n /\
                  pos (rng s') = (4 * n + pos (rng s))%nat.
Proof.
  intros Hs He Hy. revert s. induction n as [|n IH]; intros s Hv.
  - exists s, []. cbn [mcmc_loop]. rewrite app_nil_r. repeat split; auto.
  - destruct (mcmc_step_ok c s Hs He Hy Hv) as (s1 & E1 & Hv1 & Hr1 & _ & _ & Hp1).
    destruct (IH s1 Hv1) as (s' & rest & E & Hv' & Hr & Hl & Hp).
    exists s', (elems (xi s1) :: rest). cbn [mcmc_loop]. rewrite E1. cbn [bind].
    repeat split; auto.
    + rewrite Hr, Hr1, <- app_assoc. reflexivity.
    + cbn [length]. now rewrite Hl.
    + rewrite Hp, Hp1. lia.
Qed.

Lemma vec3_x0 (c : Config) : vec3 (x0 c).
Proof. unfold vec3, x0. cbn [elems]. eauto. Qed.

(** Whatever the state, a pass that ends normally has evaluated both log
    densities and has taken one of the two branches. *)
Lemma mcmc_step_inv (c : Config) (s s' : chain) :
  mcmc_step c s = Ok s' ->
  exists p_x_prev p_x,
    log_prob c (xi s) = Ok p_x_prev /\
    log_prob c (draw_sel_x s) = Ok p_x /\
    s' = if accept (draw_u s) p_x p_x_prev
         then {| xi := draw_sel_x s;
                 samp_res := samp_res s ++ [elems (draw_sel_x s)];
                 rng := draw_rng s |}
         else {| xi := xi s;
                 samp_res := samp_res s ++ [elems (xi s)];
                 rng := draw_rng s |}.
Proof.
  unfold mcmc_step, draw_sel_x, draw_u, draw_rng.
  destruct (uniform 0 1 (rng s)) as [u g1]. cbn [fst snd].
  destruct (propose (elems (xi s)) g1) as [cand g2]. cbn [fst snd].
  destruct (log_prob c (xi s)) as [p_prev| |]; cbn [bind]; try discriminate.
  destruct (log_prob c (mkvec NdArray cand)) as [p_x| |]; cbn [bind]; try discriminate.
  intros H. exists p_prev, p_x. repeat split.
  destruct (accept u p_x p_prev); now apply Ok_inj in H.
Qed.

Lemma notebook_sig_ne : sig notebook <> 0.
Proof. apply notebook_sig. Qed.

Lemma notebook_sig_e_ne : sig_e notebook <> 0.
Proof. apply notebook_sig. Qed.

(** The run on [leak_draws]. *)

Lemma valid_rng_range (g : RandomState) :
  valid_rng g -> forall n, 0 <= samples g n < 1.
Proof.
  intros Hg n. destruct (Hg n) as (k & [Hk0 Hk1] & ->).
  apply IZR_le in Hk0. apply IZR_lt in Hk1. unfold resolution.
  split.
  - apply Rmult_le_pos; [exact Hk0|]. left. apply Rinv_0_lt_compat. lra.
  - apply Rmult_lt_reg_r with 9007199254740992; [lra|].
    unfold Rdiv. rewrite Rmult_assoc, Rinv_l by lra. lra.
Qed.

Ltac dyadic :=
  first
    [ exists 4503599627370496%Z; split; [lia | unfold resolution; lra]
    | exists 140737488355328%Z; split; [lia | unfold resolution; lra]
    | exists 0%Z; split; [lia | unfold resolution; lra] ].

Lemma valid_leak_rng : valid_rng leak_rng.
Proof.
  intros n. cbn [samples leak_rng]. unfold leak_samples, leak_draws.
  do 24 (destruct n as [|n]; [cbn [nth]; dyadic|]).
  cbn [nth]. destruct n; dyadic.
Qed.

Ltac leak_side :=
  cbn [rng samples pos xi elems samp_res leak_rng Nat.add x0 notebook
       a_1 a_2 a_3 b_1 b_2 b_3 mcmc_init];
  unfold leak_samples, leak_draws; cbn [nth]; lra.

Ltac leak_inside :=
  cbn [notebook a_1 a_2 a_3 b_1 b_2 b_3]; lra.

Ltac leak_uphill :=
  first
  [ unfold draw_u; rewrite uniform_eq; cbn [fst]; leak_side
  | unfold log_prob_val;
    rewrite (proj2 (in_support3_true _ _ _)) by leak_inside;
    rewrite (proj2 (in_support3_true _ _ _)) by leak_inside;
    unfold log_density; cbn [notebook y sig sig_e a_1 a_2 a_3 b_1 b_2 b_3]; lra ].

Ltac leak_step v :=
  cbn [mcmc_loop];
  erewrite (mcmc_step_values notebook _ _ _ _ 1.5 1.5 v
              notebook_sig_ne notebook_sig_e_ne notebook_moderate_y);
  [ | reflexivity | leak_side | leak_side | leak_side ];
  cbn [bind].

Ltac leak_tidy := cbn [samp_res rng samples pos leak_rng Nat.add app].

Lemma leak_run :
  exists g, mcmc_loop notebook 6 (mcmc_init notebook leak_rng) =
            Ok {| xi := mkvec NdArray [1.5; 1.5; -0.185625];
                  samp_res := leak_chain; rng := g |}.
Proof.
  unfold mcmc_init.
  leak_step 1.2190625. rewrite accept_uphill by leak_uphill. leak_tidy.
  leak_step 0.938125. rewrite accept_uphill by leak_uphill. leak_tidy.
  leak_step 0.6571875. rewrite accept_uphill by leak_uphill. leak_tidy.
  leak_step 0.37625. rewrite accept_uphill by leak_uphill. leak_tidy.
  leak_step 0.0953125. rewrite accept_uphill by leak_uphill. leak_tidy.
  leak_step (-0.185625).
  replace (draw_u _) with 0
    by (unfold draw_u; rewrite uniform_eq; cbn [fst]; leak_side).
  rewrite accept_zero. leak_tidy.
  eexists. reflexivity.
Qed.

Lemma iterations_ge_6 : (6 <= iterations)%nat.
Proof.
  unfold iterations. apply Nat2Z.inj_le.
  rewrite Z2Nat.id by discriminate. discriminate.
Qed.

Lemma mcmc_notebook_ok (g : RandomState) :
  exists s, mcmc notebook g = Ok s /\ length (samp_res s) = iterations /\
            pos (rng s) = (4 * iterations + pos g)%nat.
Proof.
  destruct (mcmc_loop_ok notebook iterations (mcmc_init notebook g)
              notebook_sig_ne notebook_sig_e_ne notebook_moderate_y (vec3_x0 notebook))
    as (s & rest & E & _ & Hr & Hl & Hp).
  exists s. cbn [mcmc_init samp_res rng app] in Hr, Hp.
  unfold mcmc. rewrite E, Hr.
  split; [reflexivity|]. split; [exact Hl|exact Hp].
Qed.

(** Away from the draw [u = 0] the sentinel does its work: a positive
    53-bit [u] has a logarithm far above [-1e+120], so a proposal outside
    the support is rejected and the chain stays in the box. *)

Lemma ln_lower (x : R) : 0 < x -> 1 - / x <= ln x.
Proof.
  intros Hx. pose proof (exp_ineq1_le (- ln x)) as H.
  rewrite exp_Ropp, exp_ln in H by assumption. lra.
Qed.

Lemma ln_draw_lower (g : RandomState) (n : nat) :
  valid_rng g -> samples g n <> 0 ->
  0 < samples g n /\ - resolution <= ln (samples g n).
Proof.
  intros Hg Hn. destruct (Hg n) as (k & [Hk0 Hk1] & E).
  assert (Hk : (1 <= k)%Z).
  { destruct (Z.eq_dec k 0) as [-> |]; [|lia].
    exfalso. apply Hn. rewrite E. unfold Rdiv. now rewrite Rmult_0_l. }
  apply IZR_le in Hk.
  assert (Hr : 0 < resolution) by (unfold resolution; lra).
  assert (Hu : / resolution <= samples g n).
  { rewrite E. unfold Rdiv. rewrite <- (Rmult_1_l (/ resolution)) at 1.
    apply Rmult_le_compat_r; [left; now apply Rinv_0_lt_compat | exact Hk]. }
  pose proof (Rinv_0_lt_compat _ Hr) as Hi.
  assert (Hpos : 0 < samples g n) by lra.
  split; [exact Hpos|].
  pose proof (ln_lower _ Hpos) as Hl.
  assert (Hinv : / samples g n <= resolution).
  { rewrite <- (Rinv_inv resolution). apply Rinv_le_contravar; assumption. }
  lra.
Qed.

Lemma log_density_lower (x1 x2 x3 : R) :
  in_support [x1; x2; x3] = true -> - 200000 <= log_density notebook x1 x2 x3.
Proof.
  intros H. apply in_support3_true in H.
  unfold log_density. cbn [y sig sig_e notebook].
  assert (H1 : (1.5 - x1) ^ 2 <= 3) by nra.
  assert (H2 : (0 - x1 + x2 + x3) ^ 2 <= 36) by nra.
  lra.
Qed.

Lemma reject_outside (u p_x_prev : R) :
  0 < u -> - resolution <= ln u -> - 200000 <= p_x_prev ->
  accept u sentinel p_x_prev = false.
Proof.
  intros Hu Hl Hp. destruct (accept u sentinel p_x_prev) eqn:E; [|reflexivity].
  apply accept_pos in E; [|exact Hu]. exfalso.
  pose proof (Rmin_r 0 (sentinel - p_x_prev)).
  unfold sentinel, resolution in *. lra.
Qed.

Lemma mcmc_step_open (s : chain) :
  valid_rng (rng s) -> samples (rng s) (pos (rng s)) <> 0 ->
  open_state (xi s) ->
  exists s', mcmc_step notebook s = Ok s' /\ open_state (xi s') /\
             samp_res s' = samp_res s ++ [elems (xi s')] /\
             samples (rng s') = samples (rng s) /\
             pos (rng s') = (4 + pos (rng s))%nat.
Proof.
  intros Hg Hu (x1 & x2 & x3 & Hx & Hin).
  rewrite (mcmc_step_values notebook s x1 x2 x3 _ _ _
             notebook_sig_ne notebook_sig_e_ne notebook_moderate_y
             Hx eq_refl eq_refl eq_refl).
  set (v1 := x1 - 0.29 + _). set (v2 := x2 - 0.29 + _). set (v3 := x3 - 0.29 + _).
  destruct (accept _ _ _) eqn:Ea; eexists; (split; [reflexivity|]);
    cbn [xi samp_res rng samples pos elems].
  - repeat split; try reflexivity.
    exists v1, v2, v3. split; [reflexivity|].
    destruct (in_support [v1; v2; v3]) eqn:Hv; [reflexivity|]. exfalso.
    unfold log_prob_val in Ea. rewrite Hv, Hin in Ea.
    destruct (ln_draw_lower _ _ Hg Hu) as [Hpos Hl].
    rewrite reject_outside in Ea; [discriminate| | |].
    + unfold draw_u. rewrite uniform_eq. cbn [fst]. lra.
    + unfold draw_u. rewrite uniform_eq. cbn [fst].
      replace (0 + (1 - 0) * samples (rng s) (pos (rng s)))
        with (samples (rng s) (pos (rng s))) by lra.
      exact Hl.
    + now apply log_density_lower.
  - repeat split; try reflexivity.
    + now exists x1, x2, x3.
    + now rewrite Hx.
Qed.

Lemma open_state_in_box (v : vec) : open_state v -> in_box notebook (elems v).
Proof.
  intros (x1 & x2 & x3 & -> & H). apply in_support3_true in H. cbn. lra.
Qed.

Lemma mcmc_loop_in_box (n : nat) (s : chain) :
  valid_rng (rng s) ->
  (forall t, (t < n)%nat -> samples (rng s) (4 * t + pos (rng s)) <> 0) ->
  open_state (xi s) -> Forall (in_box notebook) (samp_res s) ->
  exists s', mcmc_loop notebook n s = Ok s' /\ Forall (in_box notebook) (samp_res s').
Proof.
  revert s. induction n as [|n IH]; intros s Hg Hz Ho Hb; cbn [mcmc_loop].
  - now exists s.
  - destruct (mcmc_step_open s Hg) as (s1 & E1 & Ho1 & Hr1 & Hs1 & Hp1); [|exact Ho|].
    { apply (Hz 0%nat). lia. }
    rewrite E1. cbn [bind]. apply IH.
    + intros m. unfold valid_rng in Hg. rewrite Hs1. apply Hg.
    + intros t Ht. rewrite Hs1, Hp1.
      replace (4 * t + (4 + pos (rng s)))%nat with (4 * S t + pos (rng s))%nat by lia.
      apply Hz. lia.
    + exact Ho1.
    + rewrite Hr1. apply Forall_app. split; [exact Hb|].
      constructor; [now apply open_state_in_box | constructor].
Qed.

(** On every run in which no draw of [u] is 0 all recorded states are in
    the box. *)
Lemma chain_in_box_without_zero_draw (g : RandomState) :
  valid_rng g ->
  (forall t, (t < iterations)%nat -> samples g (4 * t + pos g) <> 0) ->
  exists s, mcmc notebook g = Ok s /\ Forall (in_box notebook) (samp_res s).
Proof.
  intros Hg Hz. unfold mcmc. apply mcmc_loop_in_box; cbn [mcmc_init rng xi samp_res].
  - exact Hg.
  - exact Hz.
  - unfold open_state, x0. cbn [elems]. do 3 eexists. split; [reflexivity|].
    apply in_support3_true. cbn. lra.
  - constructor.
Qed.

Lemma chain_in_box_half_rng :
  exists s, mcmc notebook half_rng = Ok s /\ Forall (in_box notebook) (samp_res s).
Proof.
  apply chain_in_box_without_zero_draw.
  - intros n. cbn [samples half_rng]. dyadic.
  - intros t _. cbn [samples half_rng]. lra.
Defined.

(** C2, the code at the failing input: with the raw draws [leak_draws],
    every one in [[0, 1)], the sixth draw of [u] is 0; the sixth proposal
    [(1.5, 1.5, -0.185625)] lies outside the box, [np.log(0) = -inf] passes the
    acceptance test, and the state recorded sixth in [samp_res] of the full
    run of 1,500,000 iterations is outside the box. *)
Theorem sampler_leaves_box :
  valid_rng leak_rng /\
  exists s, mcmc notebook leak_rng = Ok s /\
            nth 5 (samp_res s) [] = [1.5; 1.5; -0.185625] /\
            ~ in_box notebook (nth 5 (samp_res s) []).
Proof.
  split; [apply valid_leak_rng|].
  destruct leak_run as (g & E6).
  assert (Hv : vec3 (xi {| xi := mkvec NdArray [1.5; 1.5; -0.185625];
                           samp_res := leak_chain; rng := g |})).
  { cbn [xi]. unfold vec3. cbn [elems]. eauto. }
  destruct (mcmc_loop_ok notebook (iterations - 6) _
              notebook_sig_ne notebook_sig_e_ne notebook_moderate_y Hv)
    as (s & rest & E & _ & Hr & _ & _).
  exists s. unfold mcmc.
  replace iterations with (6 + (iterations - 6))%nat
    by (pose proof iterations_ge_6; lia).
  rewrite mcmc_loop_add, E6. cbn [bind]. rewrite E.
  cbn [samp_res] in Hr. rewrite Hr.
  split; [reflexivity|].
  rewrite app_nth1 by (cbn; lia).
  split; [reflexivity|].
  cbn. lra.
Qed.

(** C6: the loop makes all 1,500,000 passes (four draws are consumed per
    pass, none is skipped); a pass that ends normally appends exactly one
    entry to [samp_res], the proposal when the test accepts and the
    unchanged previous state otherwise; after the run the chain has as
    many entries as there were iterations. *)
Theorem chain_length (g : RandomState) :
  (forall s s', mcmc_step notebook s = Ok s' ->
     (samp_res s' = samp_res s ++ [elems (draw_sel_x s)] /\ xi s' = draw_sel_x s) \/
     (samp_res s' = samp_res s ++ [elems (xi s)] /\ xi s' = xi s))
  /\ exists s, mcmc notebook g = Ok s /\
               length (samp_res s) = iterations /\
               iterations = Z.to_nat 1500000 /\
               pos (rng s) = (4 * iterations + pos g)%nat.
Proof.
  split.
  - intros s s' H. apply mcmc_step_inv in H.
    destruct H as (p_prev & p_x & _ & _ & ->).
    destruct (accept _ _ _); cbn [samp_res xi]; auto.
  - destruct (mcmc_notebook_ok g) as (s & E & Hl & Hp).
    exists s. split; [exact E|]. split; [exact Hl|].
    split; [reflexivity|exact Hp].
Qed.

Lemma chain_length_witness :
  exists s', mcmc_step notebook (mcmc_init notebook leak_rng) = Ok s' /\
    ((samp_res s' = [] ++ [elems (draw_sel_x (mcmc_init notebook leak_rng))] /\
      xi s' = draw_sel_x (mcmc_init notebook leak_rng)) \/
     (samp_res s' = [] ++ [elems (x0 notebook)] /\ xi s' = x0 notebook)).
Proof.
  destruct (mcmc_step_ok notebook (mcmc_init notebook leak_rng)
              notebook_sig_ne notebook_sig_e_ne notebook_moderate_y (vec3_x0 notebook))
    as (s' & E & _).
  exists s'. split; [exact E|].
  exact (proj1 (chain_length leak_rng) (mcmc_init notebook leak_rng) s' E).
Defined.

(** C3, as the code has it: in every iteration the proposal takes, for
    each of the three coordinates, its own raw draw [r] and is
    [low + (high - low) * r] with [low = current - 0.29] and
    [high = current + 0.29], so it lies in the closed interval
    [[current - 0.29, current + 0.29]], neither end excluded; [u] is the
    raw draw before them and lies in [[0, 1)]; and whenever [u] is
    positive the chain moves to the proposal exactly when
    [log u < min(0, log_p_candidate - log_p_current)] and otherwise keeps
    its state. *)
Theorem mcmc_step_rule (c : Config) (s : chain) (x1 x2 x3 p_x_prev p_x : R) :
  valid_rng (rng s) ->
  elems (xi s) = [x1; x2; x3] ->
  log_prob c (xi s) = Ok p_x_prev ->
  log_prob c (draw_sel_x s) = Ok p_x ->
  (draw_u s = samples (rng s) (pos (rng s)) /\ 0 <= draw_u s < 1)
  /\ (exists v1 v2 v3,
        elems (draw_sel_x s) = [v1; v2; v3] /\
        v1 = x1 - 0.29 + (x1 + 0.29 - (x1 - 0.29)) * samples (rng s) (1 + pos (rng s)) /\
        v2 = x2 - 0.29 + (x2 + 0.29 - (x2 - 0.29)) * samples (rng s) (2 + pos (rng s)) /\
        v3 = x3 - 0.29 + (x3 + 0.29 - (x3 - 0.29)) * samples (rng s) (3 + pos (rng s)) /\
        x1 - 0.29 <= v1 <= x1 + 0.29 /\
        x2 - 0.29 <= v2 <= x2 + 0.29 /\
        x3 - 0.29 <= v3 <= x3 + 0.29)
  /\ (0 < draw_u s ->
      exists s', mcmc_step c s = Ok s' /\
        (ln (draw_u s) < Rmin 0 (p_x - p_x_prev) -> xi s' = draw_sel_x s) /\
        (~ ln (draw_u s) < Rmin 0 (p_x - p_x_prev) -> xi s' = xi s)).
Proof.
  intros Hg Hx Hprev Hcand.
  assert (Hu : draw_u s = samples (rng s) (pos (rng s))).
  { unfold draw_u. rewrite uniform_eq. cbn [fst]. lra. }
  pose proof (valid_rng_range _ Hg) as Hr.
  split; [split; [exact Hu | rewrite Hu; apply Hr]|].
  split.
  - unfold draw_sel_x. rewrite uniform_eq, Hx, propose3. cbn [fst snd elems samples pos].
    do 3 eexists. split; [reflexivity|]. cbn [Nat.add].
    pose proof (Hr (S (pos (rng s)))). pose proof (Hr (S (S (pos (rng s))))).
    pose proof (Hr (S (S (S (pos (rng s)))))).
    repeat split; try reflexivity; nra.
  - intros Hpos.
    assert (E : mcmc_step c s =
                Ok (if accept (draw_u s) p_x p_x_prev
                    then {| xi := draw_sel_x s;
                            samp_res := samp_res s ++ [elems (draw_sel_x s)];
                            rng := draw_rng s |}
                    else {| xi := xi s;
                            samp_res := samp_res s ++ [elems (xi s)];
                            rng := draw_rng s |})).
    { revert Hcand. unfold mcmc_step, draw_sel_x, draw_u, draw_rng.
      destruct (uniform 0 1 (rng s)) as [u g1]. cbn [fst snd].
      destruct (propose (elems (xi s)) g1) as [cand g2]. cbn [fst snd].
      intros Hcand. rewrite Hprev, Hcand. cbn [bind elems].
      destruct (accept u p_x p_x_prev); reflexivity. }
    rewrite E. eexists. split; [reflexivity|].
    pose proof (accept_pos (draw_u s) p_x p_x_prev Hpos) as Ha.
    destruct (accept (draw_u s) p_x p_x_prev); cbn [xi]; split; intros H.
    + reflexivity.
    + exfalso. apply H. now apply Ha.
    + apply Ha in H. discriminate.
    + reflexivity.
Qed.

Lemma mcmc_step_rule_witness :
  draw_u (mcmc_init notebook leak_rng) = samples leak_rng 0 /\
  0 <= draw_u (mcmc_init notebook leak_rng) < 1.
Proof.
  refine (proj1 (mcmc_step_rule notebook (mcmc_init notebook leak_rng)
            _ _ _ _ _ valid_leak_rng eq_refl
            (log_prob_three notebook PyList _ _ _
               notebook_sig_ne notebook_sig_e_ne notebook_moderate_y)
            (log_prob_three notebook NdArray _ _ _
               notebook_sig_ne notebook_sig_e_ne notebook_moderate_y))).
Defined.

(** C3 as the specification states it fails on the interval of [u]: a
    generator all of whose raw draws are in [[0, 1)] can return [u = 0],
    which is not in the open interval. *)
Lemma draw_u_not_open :
  valid_rng zero_rng /\
  ~ 0 < fst (uniform 0 1 zero_rng) < 1.
Proof.
  split.
  - intros n. exists 0%Z. split; [lia|]. cbn. unfold resolution. lra.
  - rewrite uniform_eq. cbn. lra.
Qed.

(** ** No check of the configuration *)

Lemma pow2_cases (k : seq_kind) (x : R) :
  (x ^ 2 < float_overflow /\ pow2 k x = Ok (x ^ 2)) \/
  (float_overflow <= x ^ 2 /\
   pow2 k x = match k with PyList => Raised OverflowError | NdArray => NonFinite end).
Proof.
  unfold pow2. destruct (Rltb (x ^ 2) float_overflow) eqn:E.
  - left. split; [now apply Rltb_true|reflexivity].
  - right. split; [now apply Rltb_false|reflexivity].
Qed.

Lemma truediv_cases (k : seq_kind) (num den : R) :
  (den <> 0 /\ truediv k num den = Ok (num / den)) \/
  (den = 0 /\
   truediv k num den =
   match k with PyList => Raised ZeroDivisionError | NdArray => NonFinite end).
Proof.
  unfold truediv. destruct (Req_dec_T den 0) as [E|N].
  - right. split; [exact E|reflexivity].
  - left. split; [exact N|reflexivity].
Qed.

(** What the first branch of [log_prob] can do on three flows of the
    support: return a value, leave the reals (numpy only), or raise
    (Python floats only) [OverflowError] in the first square or
    [ZeroDivisionError] in one of the two divisions. *)
Lemma prob_branch_cases (c : Config) (k : seq_kind) (x1 x2 x3 : R) :
  0 < x1 < 3 -> 0 < x2 < 3 -> 0 < x3 < 3 ->
  (sig c <> 0 /\ sig_e c <> 0 /\ (y c - x1) ^ 2 < float_overflow /\
   prob_branch c k x1 x2 x3 = Ok (log_density c x1 x2 x3)) \/
  (k = NdArray /\ prob_branch c k x1 x2 x3 = NonFinite) \/
  (k = PyList /\ float_overflow <= (y c - x1) ^ 2 /\
   prob_branch c k x1 x2 x3 = Raised OverflowError) \/
  (k = PyList /\ (y c - x1) ^ 2 < float_overflow /\ (sig c = 0 \/ sig_e c = 0) /\
   prob_branch c k x1 x2 x3 = Raised ZeroDivisionError).
Proof.
  intros H1 H2 H3. unfold prob_branch.
  destruct (pow2_cases k (y c - x1)) as [[Hf ->]|[Hf ->]].
  - cbn [bind].
    destruct (truediv_cases k (- (y c - x1) ^ 2) (2 * sig c)) as [[Hs ->]|[Hs ->]].
    + cbn [bind]. rewrite (pow2_balance k x1 x2 x3 H1 H2 H3). cbn [bind].
      destruct (truediv_cases k (- (0 - x1 + x2 + x3) ^ 2) (2 * sig_e c))
        as [[He ->]|[He ->]].
      * left. cbn [bind]. repeat split; lra.
      * destruct k; cbn [bind].
        -- right; right; right. repeat split; try assumption. right. lra.
        -- right; left. split; reflexivity.
    + destruct k; cbn [bind].
      * right; right; right. repeat split; try assumption. left. lra.
      * right; left. split; reflexivity.
  - destruct k; cbn [bind].
    + right; right; left. repeat split; assumption.
    + right; left. split; reflexivity.
Qed.

Lemma log_prob3_cases (c : Config) (k : seq_kind) (x1 x2 x3 : R) :
  (exists v, log_prob c (mkvec k [x1; x2; x3]) = Ok v) \/
  (k = NdArray /\ log_prob c (mkvec k [x1; x2; x3]) = NonFinite) \/
  (k = PyList /\ in_support [x1; x2; x3] = true /\
   float_overflow <= (y c - x1) ^ 2 /\
   log_prob c (mkvec k [x1; x2; x3]) = Raised OverflowError) \/
  (k = PyList /\ in_support [x1; x2; x3] = true /\
   (y c - x1) ^ 2 < float_overflow /\ (sig c = 0 \/ sig_e c = 0) /\
   log_prob c (mkvec k [x1; x2; x3]) = Raised ZeroDivisionError).
Proof.
  destruct (in_support [x1; x2; x3]) eqn:Hin.
  - rewrite (log_prob_branch c k x1 x2 x3 Hin).
    pose proof (proj1 (in_support3_true x1 x2 x3) Hin) as (H1 & H2 & H3).
    destruct (prob_branch_cases c k x1 x2 x3 H1 H2 H3)
      as [(_ & _ & _ & E)|[(Hk & E)|[(Hk & Hf & E)|(Hk & Hf & Hz & E)]]].
    + left. eauto.
    + right; left. auto.
    + right; right; left. auto.
    + right; right; right. auto.
  - left. exists sentinel. now apply log_prob_outside.
Qed.

(** A numpy array of three flows never makes [log_prob] raise. *)
Lemma log_prob_array_calm (c : Config) (x1 x2 x3 : R) (e : exn) :
  log_prob c (mkvec NdArray [x1; x2; x3]) <> Raised e.
Proof.
  destruct (log_prob3_cases c NdArray x1 x2 x3)
    as [[v E]|[(_ & E)|[(Hk & _)|(Hk & _)]]]; try discriminate Hk;
    rewrite E; discriminate.
Qed.

(** A pass that starts in a state on which [log_prob] does not raise
    does not raise, and leaves such a state. *)
Lemma mcmc_step_calm (c : Config) (s : chain) :
  vec3 (xi s) -> (forall e, log_prob c (xi s) <> Raised e) ->
  (exists s', mcmc_step c s = Ok s' /\ vec3 (xi s') /\
              (forall e, log_prob c (xi s') <> Raised e)) \/
  mcmc_step c s = NonFinite.
Proof.
  intros (x1 & x2 & x3 & Hx) Hcalm.
  unfold mcmc_step. rewrite uniform_eq, Hx, propose3.
  destruct (log_prob c (xi s)) as [p| e|] eqn:Ep; cbn [bind].
  - match goal with |- context [log_prob c (mkvec NdArray [?a; ?b; ?d])] =>
      pose proof (log_prob_array_calm c a b d) as Hc;
      destruct (log_prob c (mkvec NdArray [a; b; d])) as [q| e|] eqn:Eq
    end; cbn [bind].
    + left. destruct (accept _ _ _); eexists; (split; [reflexivity|]); cbn [xi]; split.
      * unfold vec3; cbn [elems]; eauto.
      * intros e. rewrite Eq. discriminate.
      * unfold vec3; eauto.
      * intros e. rewrite Ep. discriminate.
    + exfalso. now apply (Hc e).
    + right. reflexivity.
  - exfalso. now apply (Hcalm e).
  - right. reflexivity.
Qed.

Lemma mcmc_loop_calm (c : Config) (n : nat) (s : chain) :
  vec3 (xi s) -> (forall e, log_prob c (xi s) <> Raised e) ->
  (exists s', mcmc_loop c n s = Ok s') \/ mcmc_loop c n s = NonFinite.
Proof.
  revert s. induction n as [|n IH]; intros s Hv Hc; cbn [mcmc_loop].
  - left. eauto.
  - destruct (mcmc_step_calm c s Hv Hc) as [(s1 & -> & Hv1 & Hc1)| ->]; cbn [bind]; auto.
Qed.

Lemma mcmc_step_raise (c : Config) (s : chain) (e : exn) :
  log_prob c (xi s) = Raised e -> mcmc_step c s = Raised e.
Proof.
  intros H. unfold mcmc_step.
  destruct (uniform 0 1 (rng s)) as [u g1].
  destruct (propose (elems (xi s)) g1) as [cand g2].
  rewrite H. reflexivity.
Qed.

(** The run raises exactly what the first call [log_prob(x0)] raises. *)
Lemma mcmc_raised_iff (c : Config) (g : RandomState) (e : exn) :
  mcmc c g = Raised e <-> log_prob c (x0 c) = Raised e.
Proof.
  unfold mcmc. split.
  - intros H. destruct (log_prob c (x0 c)) as [p| e0|] eqn:E.
    + destruct (mcmc_loop_calm c iterations (mcmc_init c g) (vec3_x0 c))
        as [[s E1]|E1]; try (rewrite E1 in H; discriminate H).
      cbn [mcmc_init xi]. intros e1. rewrite E. discriminate.
    + pose proof iterations_ge_6 as Hi.
      destruct iterations as [|m]; [inversion Hi|].
      cbn [mcmc_loop] in H.
      rewrite (mcmc_step_raise c (mcmc_init c g) e0 E) in H. cbn [bind] in H.
      injection H as ->. reflexivity.
    + destruct (mcmc_loop_calm c iterations (mcmc_init c g) (vec3_x0 c))
        as [[s E1]|E1]; try (rewrite E1 in H; discriminate H).
      cbn [mcmc_init xi]. intros e1. rewrite E. discriminate.
  - intros E. pose proof iterations_ge_6 as Hi.
    destruct iterations as [|m]; [inversion Hi|].
    cbn [mcmc_loop]. now rewrite (mcmc_step_raise c (mcmc_init c g) e E).
Qed.

(** What the first call [log_prob(x0)] raises, on the Python list [x0]. *)
Lemma log_prob_x0_raised (c : Config) (e : exn) :
  log_prob c (x0 c) = Raised e <->
  in_support (elems (x0 c)) = true /\
  ((e = OverflowError /\
    float_overflow <= (y c - (a_1 c + (b_1 c - a_1 c) / 2)) ^ 2) \/
   (e = ZeroDivisionError /\
    (y c - (a_1 c + (b_1 c - a_1 c) / 2)) ^ 2 < float_overflow /\
    (sig c = 0 \/ sig_e c = 0))).
Proof.
  unfold x0. cbn [elems].
  set (m1 := a_1 c + (b_1 c - a_1 c) / 2).
  set (m2 := a_2 c + (b_2 c - a_2 c) / 2).
  set (m3 := a_3 c + (b_3 c - a_3 c) / 2).
  destruct (log_prob3_cases c PyList m1 m2 m3)
    as [[v E]|[(Hk & _)|[(_ & Hin & Hf & E)|(_ & Hin & Hf & Hz & E)]]];
    try discriminate Hk; rewrite E.
  - split; [discriminate|].
    intros (Hin & H). rewrite (log_prob_branch c PyList m1 m2 m3 Hin) in E.
    pose proof (proj1 (in_support3_true m1 m2 m3) Hin) as (H1 & H2 & H3).
    destruct (prob_branch_cases c PyList m1 m2 m3 H1 H2 H3)
      as [(Hs & He & Hf & _)|[(Hk & _)|[(_ & _ & E')|(_ & _ & _ & E')]]];
      try discriminate Hk.
    + destruct H as [(_ & H)|(_ & _ & [H|H])]; [lra|contradiction|contradiction].
    + rewrite E' in E. discriminate E.
    + rewrite E' in E. discriminate E.
  - split.
    + intros H. injection H as <-. split; [exact Hin|]. left. now split.
    + intros (_ & [(-> & _)|(_ & H & _)]); [reflexivity|lra].
  - split.
    + intros H. injection H as <-. split; [exact Hin|]. right. now repeat split.
    + intros (_ & [(_ & H)|(-> & _)]); [lra|reflexivity].
Qed.

Lemma moderate_no_overflow (c : Config) :
  moderate_y c -> in_support (elems (x0 c)) = true ->
  (y c - (a_1 c + (b_1 c - a_1 c) / 2)) ^ 2 < float_overflow.
Proof.
  intros [H1 H2] Hin. unfold x0 in Hin. cbn [elems] in Hin.
  apply in_support3_true in Hin. destruct Hin as (Hm & _).
  pose proof float_overflow_bounds. nra.
Qed.

Lemma overflow_cfg_raises : log_prob overflow_cfg (x0 overflow_cfg) = Raised OverflowError.
Proof.
  apply log_prob_x0_raised. split.
  - unfold x0. cbn [elems overflow_cfg a_1 a_2 a_3 b_1 b_2 b_3].
    apply in_support3_true. lra.
  - left. split; [reflexivity|].
    cbn [overflow_cfg y a_1 b_1]. pose proof float_overflow_bounds. lra.
Qed.

(** C8, as the code has it: nothing checks the configuration before a
    run.  With [sig] and [sig_e] different from zero and every number of
    the configuration of magnitude at most [1e150], negative variances
    and empty or reversed boxes included, the sampler makes all its
    passes and records one state for each; in that range the only
    exception a configuration can cause is the [ZeroDivisionError] of a
    division by [2*sig] or [2*sig_e] inside [log_prob], when one of them
    is zero.  Outside that range the measurement is not checked either:
    with [y = 1e200] the square [(y-par[0])**2] of the first call
    [log_prob(x0)] raises [OverflowError]. *)
Theorem no_configuration_check (c : Config) (g : RandomState) :
  (sig c <> 0 -> sig_e c <> 0 -> moderate c ->
   exists s, mcmc c g = Ok s /\ length (samp_res s) = iterations)
  /\ (moderate c -> forall e, mcmc c g = Raised e ->
      e = ZeroDivisionError /\ (sig c = 0 \/ sig_e c = 0))
  /\ mcmc overflow_cfg g = Raised OverflowError.
Proof.
  split; [|split].
  - intros Hs He [Hy _].
    destruct (mcmc_loop_ok c iterations (mcmc_init c g) Hs He Hy (vec3_x0 c))
      as (s & rest & E & _ & Hr & Hl & _).
    exists s. cbn [mcmc_init samp_res app] in Hr. unfold mcmc.
    rewrite E, Hr. split; [reflexivity|exact Hl].
  - intros [Hy _] e H. apply mcmc_raised_iff in H.
    apply log_prob_x0_raised in H. destruct H as (Hin & [(_ & Hf)|(-> & _ & Hz)]).
    + pose proof (moderate_no_overflow c Hy Hin). lra.
    + split; [reflexivity|exact Hz].
  - apply mcmc_raised_iff. exact overflow_cfg_raises.
Qed.

Lemma degenerate_cfg_degenerate : degenerate degenerate_cfg.
Proof. left. cbn. lra. Qed.

Lemma degenerate_cfg_moderate : moderate degenerate_cfg.
Proof.
  unfold moderate, moderate_y.
  cbn [degenerate_cfg y a_1 a_2 a_3 b_1 b_2 b_3]. lra.
Qed.

Lemma no_configuration_check_witness :
  degenerate degenerate_cfg /\
  exists s, mcmc degenerate_cfg leak_rng = Ok s /\
            length (samp_res s) = iterations.
Proof.
  split; [exact degenerate_cfg_degenerate|].
  apply (proj1 (no_configuration_check degenerate_cfg leak_rng));
    [cbn [sig degenerate_cfg]; lra|cbn [sig_e degenerate_cfg]; lra
    |exact degenerate_cfg_moderate].
Defined.

(** C8 as the specification states it fails: [degenerate_cfg] has
    negative [sig] and [sig_e] and a reversed box, and no run on it is
    rejected. *)
Lemma degenerate_not_rejected :
  degenerate degenerate_cfg /\
  sig degenerate_cfg <= 0 /\ sig_e degenerate_cfg <= 0 /\
  a_1 degenerate_cfg >= b_1 degenerate_cfg /\
  forall g, ~ rejected (mcmc degenerate_cfg g).
Proof.
  split; [exact degenerate_cfg_degenerate|].
  repeat (split; [cbn; lra|]).
  intros g [e H].
  assert (Hs : sig degenerate_cfg <> 0) by (cbn [sig degenerate_cfg]; lra).
  assert (He : sig_e degenerate_cfg <> 0) by (cbn [sig_e degenerate_cfg]; lra).
  destruct (mcmc_loop_ok degenerate_cfg iterations (mcmc_init degenerate_cfg g)
              Hs He (proj1 degenerate_cfg_moderate) (vec3_x0 degenerate_cfg))
    as (s & rest & E & _).
  unfold mcmc in H. rewrite E in H. discriminate.
Qed.

(** ** The analytical cell *)

Lemma ln_sqrt_half (x : R) : 0 < x -> ln (sqrt x) = 0.5 * ln x.
Proof.
  intros Hx. pose proof (sqrt_lt_R0 x Hx) as Hs.
  assert (E : ln x = ln (sqrt x) + ln (sqrt x)).
  { rewrite <- ln_mult by assumption. now rewrite sqrt_sqrt by lra. }
  lra.
Qed.

Lemma ln_inv_sqrt (x : R) : 0 < x -> ln (1 / sqrt x) = - 0.5 * ln x.
Proof.
  intros Hx. pose proof (sqrt_lt_R0 x Hx) as Hs.
  unfold Rdiv. rewrite Rmult_1_l, ln_Rinv by assumption.
  rewrite ln_sqrt_half by assumption. lra.
Qed.

Lemma sq_pos (x : R) : x <> 0 -> 0 < x ^ 2.
Proof. intros H. nra. Qed.

Lemma two_pi_sq_pos (x : R) : x <> 0 -> 0 < 2 * PI * x ^ 2.
Proof.
  intros H. pose proof PI_RGT_0. pose proof (sq_pos x H).
  apply Rmult_lt_0_compat; lra.
Qed.

Lemma half_inv_sum_pos (s e : R) :
  s <> 0 -> e <> 0 -> 0 < 1 / (2 * s ^ 2) + 1 / (2 * e ^ 2).
Proof.
  intros Hs He. pose proof (sq_pos s Hs). pose proof (sq_pos e He).
  apply Rplus_lt_0_compat; apply Rdiv_lt_0_compat; lra.
Qed.

Lemma analytical_spec_logC (c : Config) (x2 x3 : R) :
  sig c <> 0 -> sig_e c <> 0 ->
  analytical c x2 x3 = spec_logC x2 x3 (y c) (sig c) (sig_e c).
Proof.
  intros Hs He. unfold analytical, spec_logC, term1, term2, term3, term4, term5, term6.
  rewrite (ln_inv_sqrt _ (two_pi_sq_pos _ Hs)).
  rewrite (ln_inv_sqrt _ (two_pi_sq_pos _ He)).
  rewrite ln_sqrt_half.
  - cbv zeta. lra.
  - apply Rdiv_lt_0_compat; [apply PI_RGT_0 | now apply half_inv_sum_pos].
Qed.

(** C7: the value the analytical cell appends for [(x2, x3)] depends on
    the configuration only through [y], [sig] and [sig_e] and is the closed
    form [logC] of the specification with [sigma = sig], [sigma_e = sig_e]. *)
Theorem analytical_closed_form (c : Config) (x2 x3 : R) :
  sig c <> 0 -> sig_e c <> 0 ->
  analytical c x2 x3 = spec_logC x2 x3 (y c) (sig c) (sig_e c).
Proof. apply analytical_spec_logC. Qed.

Lemma analytical_closed_form_witness :
  analytical notebook 0.75 0.75 = spec_logC 0.75 0.75 1.5 0.1 0.0001.
Proof.
  apply (analytical_closed_form notebook 0.75 0.75); cbn; lra.
Defined.

(** ** Arrays *)

Section Tab.
Context {A : Type}.

Lemma length_tab (n : nat) (f : nat -> A) : length (tab n f) = n.
Proof. unfold tab. now rewrite length_map, length_seq. Qed.

Lemma nth_tab (n i : nat) (f : nat -> A) (d : A) :
  (i < n)%nat -> nth i (tab n f) d = f i.
Proof.
  intros H. unfold tab.
  rewrite (nth_indep _ d (f 0%nat)) by now rewrite length_map, length_seq.
  rewrite map_nth, seq_nth by assumption. reflexivity.
Qed.

Lemma tab_ext (n : nat) (f g : nat -> A) :
  (forall i, (i < n)%nat -> f i = g i) -> tab n f = tab n g.
Proof.
  intros H. unfold tab. apply map_ext_in. intros i Hi.
  apply in_seq in Hi. apply H. lia.
Qed.

Lemma list_as_tab (l : list A) (d : A) : l = tab (length l) (fun i => nth i l d).
Proof.
  apply (nth_ext _ _ d d).
  - now rewrite length_tab.
  - intros i Hi. now rewrite nth_tab.
Qed.

Lemma tl_tab (n : nat) (f : nat -> A) : tl (tab n f) = tab (n - 1) (fun i => f (S i)).
Proof.
  destruct n as [|n]; [reflexivity|].
  replace (S n - 1)%nat with n by lia.
  unfold tab. cbn [seq map tl].
  rewrite <- seq_shift, map_map. reflexivity.
Qed.

Lemma removelast_tab (n : nat) (f : nat -> A) : removelast (tab n f) = tab (n - 1) f.
Proof.
  destruct n as [|n]; [reflexivity|].
  replace (S n - 1)%nat with n by lia.
  unfold tab. rewrite seq_S, map_app. cbn [map Nat.add].
  now rewrite removelast_last.
Qed.

Lemma hd_tab_length (n m : nat) (f : nat -> list A) :
  (forall i, length (f i) = m) -> (n = 0 -> m = 0)%nat ->
  length (hd [] (tab n f)) = m.
Proof.
  intros Hf H0. destruct n as [|n].
  - cbn. symmetry. now apply H0.
  - cbn. apply Hf.
Qed.

End Tab.

Lemma map_tab {A B : Type} (g : A -> B) (n : nat) (f : nat -> A) :
  map g (tab n f) = tab n (fun i => g (f i)).
Proof. unfold tab. now rewrite map_map. Qed.

Lemma map2_tab {A B C : Type} (g : A -> B -> C) (n : nat) (u : nat -> A) (v : nat -> B) :
  map2 g (tab n u) (tab n v) = tab n (fun i => g (u i) (v i)).
Proof.
  unfold map2, tab. generalize (seq 0 n) as l.
  induction l as [|a l IH]; cbn [map combine fst snd]; [reflexivity|].
  now rewrite IH.
Qed.

Lemma map2_map {A B C D : Type} (g : B -> C -> D) (u : A -> B) (v : A -> C) (l : list A) :
  map2 g (map u l) (map v l) = map (fun a => g (u a) (v a)) l.
Proof.
  unfold map2. induction l as [|a l IH]; cbn [map combine fst snd]; [reflexivity|].
  now rewrite IH.
Qed.

(** Chunks of a concatenation of rows of one length. *)
Lemma chunks_concat {A : Type} (k : nat) (L : list (list A)) :
  Forall (fun r => length r = k) L -> chunks (length L) k (concat L) = L.
Proof.
  induction 1 as [|r L Hr HL IH]; [reflexivity|].
  cbn [length chunks concat].
  rewrite firstn_app, skipn_app, Hr, Nat.sub_diag.
  rewrite <- Hr at 1. rewrite firstn_all.
  rewrite <- Hr at 2. rewrite skipn_all.
  cbn [firstn skipn app]. rewrite app_nil_r. now rewrite IH.
Qed.

Lemma concat_concat {A : Type} (D : list (list (list A))) :
  concat (concat D) = concat (map (@concat A) D).
Proof.
  induction D as [|s D IH]; [reflexivity|].
  cbn [concat map]. now rewrite concat_app, IH.
Qed.

Lemma combine_app_eq {A B : Type} (l1 l2 : list A) (r1 r2 : list B) :
  length l1 = length r1 ->
  combine (l1 ++ l2) (r1 ++ r2) = combine l1 r1 ++ combine l2 r2.
Proof.
  revert r1. induction l1 as [|a l1 IH]; intros [|b r1] H; try discriminate.
  - reflexivity.
  - cbn [app combine]. f_equal. apply IH. now injection H.
Qed.

Lemma combine_concat_map {A B C : Type} (f : A -> list B) (g : A -> list C) (l : list A) :
  (forall a, length (f a) = length (g a)) ->
  combine (concat (map f l)) (concat (map g l)) =
  concat (map (fun a => combine (f a) (g a)) l).
Proof.
  intros H. induction l as [|a l IH]; [reflexivity|].
  cbn [map concat]. rewrite combine_app_eq by apply H. now rewrite IH.
Qed.


Section GridArray.
Variables g1 g2 g3 : list R.

Lemma meshgrid3_grid_array :
  meshgrid3 g1 g2 g3 =
  (grid_array (fun x1 _ _ => x1) g1 g2 g3,
   grid_array (fun _ x2 _ => x2) g1 g2 g3,
   grid_array (fun _ _ x3 => x3) g1 g2 g3).
Proof.
  unfold meshgrid3, grid_array. f_equal.
  apply map_ext. intros _. apply map_ext. intros _. now rewrite map_id.
Qed.

Lemma length_row_block {A : Type} (u : R -> R -> A) :
  length (concat (map (fun x1 => map (u x1) g3) g1)) = (length g1 * length g3)%nat.
Proof.
  induction g1 as [|a l IH]; [reflexivity|].
  cbn [map concat length Nat.mul]. now rewrite length_app, length_map, IH.
Qed.

Lemma flatten_grid_array {A : Type} (f : R -> R -> R -> A) :
  concat (concat (grid_array f g1 g2 g3)) =
  concat (map (fun x2 => concat (map (fun x1 => map (fun x3 => f x1 x2 x3) g3) g1)) g2).
Proof. unfold grid_array. now rewrite concat_concat, map_map. Qed.

Lemma length_grid_array {A : Type} (f : R -> R -> R -> A) :
  length (concat (concat (grid_array f g1 g2 g3))) =
  (length g2 * (length g1 * length g3))%nat.
Proof.
  rewrite flatten_grid_array.
  induction g2 as [|x2 l IH]; [reflexivity|].
  cbn [map concat length Nat.mul].
  rewrite length_app, IH.
  now rewrite (length_row_block (fun x1 x3 => f x1 x2 x3)).
Qed.

Lemma combine_grid_array {A B : Type} (f : R -> R -> R -> A) (h : R -> R -> R -> B) :
  combine (concat (concat (grid_array f g1 g2 g3)))
          (concat (concat (grid_array h g1 g2 g3))) =
  concat (concat (grid_array (fun x1 x2 x3 => (f x1 x2 x3, h x1 x2 x3)) g1 g2 g3)).
Proof.
  rewrite !flatten_grid_array.
  rewrite combine_concat_map
    by (intros x2; now rewrite (length_row_block (fun x1 x3 => f x1 x2 x3)),
                               (length_row_block (fun x1 x3 => h x1 x2 x3))).
  f_equal. apply map_ext. intros x2.
  rewrite combine_concat_map by (intros x1; now rewrite !length_map).
  f_equal. apply map_ext. intros x1.
  induction g3 as [|z l IH]; [reflexivity|].
  cbn [map combine]. now rewrite IH.
Qed.

Lemma map_grid_array {A B : Type} (h : A -> B) (f : R -> R -> R -> A) :
  map h (concat (concat (grid_array f g1 g2 g3))) =
  concat (concat (grid_array (fun x1 x2 x3 => h (f x1 x2 x3)) g1 g2 g3)).
Proof.
  unfold grid_array. rewrite !concat_map, !map_map.
  do 2 f_equal. apply map_ext. intros x2. rewrite map_map.
  apply map_ext. intros x1. now rewrite map_map.
Qed.

(** The grid points in loop order, and the values the loop appends. *)
Lemma zip3_meshgrid3 :
  zip3 (flatten3 (fst (fst (meshgrid3 g1 g2 g3))))
       (flatten3 (snd (fst (meshgrid3 g1 g2 g3))))
       (flatten3 (snd (meshgrid3 g1 g2 g3))) =
  concat (concat (grid_array (fun x1 x2 x3 => (x1, x2, x3)) g1 g2 g3)).
Proof.
  rewrite meshgrid3_grid_array. cbn [fst snd]. unfold zip3, flatten3.
  rewrite !combine_grid_array, map_grid_array. reflexivity.
Qed.

Lemma reshape3_grid_array (f : R -> R -> R -> R) :
  reshape3 (length g2, length g1, length g3) (flatten3 (grid_array f g1 g2 g3)) =
  grid_array f g1 g2 g3.
Proof.
  unfold reshape3, flatten3. rewrite concat_concat.
  replace (length g2) with (length (map (@concat R) (grid_array f g1 g2 g3)))
    by (unfold grid_array; now rewrite !length_map).
  rewrite chunks_concat.
  - rewrite map_map. unfold grid_array at 2. rewrite <- (map_id (map _ g2)) at 1.
    unfold grid_array. rewrite !map_map. apply map_ext. intros x2.
    replace (length g1) with (length (map (fun x1 => map (fun x3 => f x1 x2 x3) g3) g1))
      by now rewrite length_map.
    apply chunks_concat. apply Forall_map, Forall_forall. intros x1 _.
    now rewrite length_map.
  - unfold grid_array. rewrite map_map. apply Forall_map, Forall_forall.
    intros x2 _. apply (length_row_block (fun x1 x3 => f x1 x2 x3)).
Qed.

End GridArray.

Lemma map2_tab2 {A B C : Type} (g : A -> B -> C) (n m : nat)
      (a : nat -> nat -> A) (b : nat -> nat -> B) :
  map2 (map2 g) (tab n (fun j => tab m (a j))) (tab n (fun j => tab m (b j))) =
  tab n (fun j => tab m (fun i => g (a j i) (b j i))).
Proof. rewrite map2_tab. apply tab_ext. intros j _. apply map2_tab. Qed.

Lemma grid_array_tab {A : Type} (f : R -> R -> R -> A) (n : nat) (u1 u2 u3 : nat -> R) :
  grid_array f (tab n u1) (tab n u2) (tab n u3) =
  tab n (fun i => tab n (fun j => tab n (fun k => f (u1 j) (u2 i) (u3 k)))).
Proof.
  unfold grid_array. rewrite map_tab. apply tab_ext. intros i _.
  rewrite map_tab. apply tab_ext. intros j _. now rewrite map_tab.
Qed.

Lemma hd_tab_S {A : Type} (n : nat) (f : nat -> A) (d : A) :
  hd d (tab (S n) f) = f 0%nat.
Proof. reflexivity. Qed.

Lemma shape3_tab (n : nat) (F : nat -> nat -> nat -> R) :
  shape3 (tab n (fun i => tab n (fun j => tab n (F i j)))) = (n, n, n).
Proof.
  unfold shape3. rewrite length_tab. destruct n as [|n]; [reflexivity|].
  rewrite !hd_tab_S, !length_tab. reflexivity.
Qed.

Lemma get3_tab (n : nat) (F : nat -> nat -> nat -> R) (i j k : nat) :
  (i < n)%nat -> (j < n)%nat -> (k < n)%nat ->
  get3 (tab n (fun i => tab n (fun j => tab n (F i j)))) i j k = F i j k.
Proof.
  intros Hi Hj Hk. unfold get3. now rewrite !nth_tab.
Qed.

Lemma transpose3_tab (n : nat) (F : nat -> nat -> nat -> R) :
  transpose3 (tab n (fun i => tab n (fun j => tab n (F i j)))) =
  tab n (fun k => tab n (fun j => tab n (fun i => F i j k))).
Proof.
  unfold transpose3. rewrite shape3_tab.
  apply tab_ext. intros k Hk. apply tab_ext. intros j Hj.
  apply tab_ext. intros i Hi. now apply get3_tab.
Qed.

Lemma trapezoid1_tab (n : nat) (u v : nat -> R) :
  trapezoid1 (tab n u) (tab n v) =
  Rsum (tab (n - 1) (fun j => (v (S j) - v j) * (u (S j) + u j) / 2)).
Proof.
  unfold trapezoid1, diff. rewrite !tl_tab, !removelast_tab, !map2_tab.
  reflexivity.
Qed.

(** Integrating the first axis of a slab whose [x] rows are constant
    integrates every column with the one-dimensional rule. *)
Lemma trapezoid_2d_axis0_tab (n : nat) (F : nat -> nat -> R) (v : nat -> R) :
  trapezoid_2d_axis0 (tab n (fun j => tab n (F j))) (tab n (fun j => tab n (fun _ => v j))) =
  tab n (fun i => trapezoid1 (tab n (fun j => F j i)) (tab n v)).
Proof.
  unfold trapezoid_2d_axis0.
  rewrite !tl_tab, !removelast_tab.
  rewrite (map2_tab2 Rminus (n - 1) n (fun j _ => v (S j)) (fun j _ => v j)).
  rewrite (map2_tab2 Rplus (n - 1) n (fun j => F (S j)) F).
  rewrite (map2_tab2 (fun d s => d * s / 2) (n - 1) n
             (fun j _ => v (S j) - v j) (fun j i => F (S j) i + F j i)).
  rewrite (hd_tab_length n n) by (intros; try apply length_tab; lia).
  apply tab_ext. intros i Hi.
  rewrite map_tab, trapezoid1_tab. f_equal.
  apply tab_ext. intros j _. now rewrite nth_tab.
Qed.

Lemma inner_trapezoid_tab (f : R -> R -> R -> R) (n : nat) (u1 u2 u3 : nat -> R) :
  trapezoid_3d_axis1
    (transpose3 (grid_array f (tab n u1) (tab n u2) (tab n u3)))
    (grid_array (fun x1 _ _ => x1) (tab n u1) (tab n u2) (tab n u3)) =
  map (fun x3 =>
         map (fun x2 => trapezoid1 (map (fun x1 => f x1 x2 x3) (tab n u1)) (tab n u1))
             (tab n u2))
      (tab n u3).
Proof.
  rewrite !grid_array_tab.
  rewrite (transpose3_tab n (fun i j k => f (u1 j) (u2 i) (u3 k))).
  unfold trapezoid_3d_axis1. rewrite map2_tab, map_tab.
  apply tab_ext. intros k _.
  rewrite (trapezoid_2d_axis0_tab n (fun j i => f (u1 j) (u2 i) (u3 k)) u1).
  rewrite map_tab. apply tab_ext. intros i _. now rewrite map_tab.
Qed.

Lemma inner_trapezoid (f : R -> R -> R -> R) (n : nat) (g1 g2 g3 : list R) :
  length g1 = n -> length g2 = n -> length g3 = n ->
  trapezoid_3d_axis1
    (transpose3 (grid_array f g1 g2 g3))
    (grid_array (fun x1 _ _ => x1) g1 g2 g3) =
  map (fun x3 => map (fun x2 => trapezoid1 (map (fun x1 => f x1 x2 x3) g1) g1) g2) g3.
Proof.
  intros H1 H2 H3.
  rewrite (list_as_tab g1 0), (list_as_tab g2 0), (list_as_tab g3 0), H1, H2, H3.
  apply inner_trapezoid_tab.
Qed.

Lemma length_linspace (a b : R) (n : nat) : length (linspace a b n) = n.
Proof. unfold linspace. now rewrite length_map, length_seq. Qed.

Lemma P_loop (c : Config) (l : list (R * R * R)) (acc : list R) :
  fold_left (fun acc p => let '(i, j, k) := p in acc ++ [density c i j k]) l acc =
  acc ++ map (fun p => let '(i, j, k) := p in density c i j k) l.
Proof.
  revert acc. induction l as [|[[i j] k] l IH]; intros acc; cbn [fold_left map].
  - now rewrite app_nil_r.
  - rewrite IH, <- app_assoc. reflexivity.
Qed.

(** The loop fills [P_] with the density at the grid points in the order
    of the flattened mesh. *)
Lemma P_map (c : Config) (n : nat) :
  P_ c n = map (fun p => let '(i, j, k) := p in density c i j k) (grid_points c n).
Proof.
  unfold P_. now rewrite P_loop.
Qed.

Lemma P_grid_array (c : Config) (n : nat) :
  P_ c n =
  flatten3 (grid_array (density c) (linspace (a_1 c) (b_1 c) n)
              (linspace (a_2 c) (b_2 c) n) (linspace (a_3 c) (b_3 c) n)).
Proof.
  rewrite P_map. unfold grid_points, X1_g, X2_g, X3_g, meshgrid_g.
  rewrite zip3_meshgrid3, map_grid_array. reflexivity.
Qed.

Lemma length_P (c : Config) (n : nat) : length (P_ c n) = (n * (n * n))%nat.
Proof.
  rewrite P_grid_array. unfold flatten3. rewrite length_grid_array.
  now rewrite !length_linspace.
Qed.

Lemma shape3_X1_g (c : Config) (n : nat) : shape3 (X1_g c n) = (n, n, n).
Proof.
  unfold X1_g, meshgrid_g. rewrite meshgrid3_grid_array. cbn [fst].
  unfold linspace. fold (tab n (fun k => a_1 c + INR k * ((b_1 c - a_1 c) / INR (n - 1)))).
  fold (tab n (fun k => a_2 c + INR k * ((b_2 c - a_2 c) / INR (n - 1)))).
  fold (tab n (fun k => a_3 c + INR k * ((b_3 c - a_3 c) / INR (n - 1)))).
  rewrite grid_array_tab. apply shape3_tab.
Qed.

(** The two-dimensional array obtained by eliminating [x1]: entry
    [[k][i]] is the one-dimensional rule over the [x1] grid at
    [(x2[i], x3[k])]. *)
Lemma P_x2x3_eq (c : Config) (n : nat) :
  P_x2x3 c n =
  map (fun x3 =>
         map (fun x2 =>
                trapezoid1 (map (fun x1 => density c x1 x2 x3) (linspace (a_1 c) (b_1 c) n))
                           (linspace (a_1 c) (b_1 c) n))
             (linspace (a_2 c) (b_2 c) n))
      (linspace (a_3 c) (b_3 c) n).
Proof.
  unfold P_x2x3. rewrite shape3_X1_g, P_grid_array.
  rewrite <- (length_linspace (a_2 c) (b_2 c) n) at 1.
  rewrite <- (length_linspace (a_1 c) (b_1 c) n) at 2.
  rewrite <- (length_linspace (a_3 c) (b_3 c) n) at 3.
  rewrite reshape3_grid_array.
  unfold X1_g, meshgrid_g. rewrite meshgrid3_grid_array. cbn [fst].
  apply (inner_trapezoid (density c) n); apply length_linspace.
Qed.

(** C4: the normalising constant is the nested one-dimensional
    trapezoidal rule: the density field of 100 x 100 x 100 values is
    integrated over [x1] against the [x1] grid, the resulting
    two-dimensional field over [x2] against the [x2] grid, and the
    resulting one-dimensional array over [x3] against the [x3] grid, each
    grid being the 100-point [linspace] of its axis. *)
Theorem P_E_trapz_nested (c : Config) :
  P_E_trapz c = nested_trapezoid c grid_pts /\
  length (P_ c grid_pts) = (grid_pts * (grid_pts * grid_pts))%nat /\
  grid_pts = 100%nat.
Proof.
  split; [|split; [|reflexivity]].
  - unfold P_E_trapz, P_E_trapz_n, nested_trapezoid. cbv zeta.
    rewrite P_x2x3_eq. unfold X2_c, meshgrid_c, meshgrid2. cbn [fst].
    unfold trapezoid_2d_axis1.
    rewrite (map2_map trapezoid1). reflexivity.
  - apply length_P.
Qed.

(** ** The density field against [log_prob] *)

Lemma nth_error_tab {A : Type} (n i : nat) (f : nat -> A) :
  (i < n)%nat -> nth_error (tab n f) i = Some (f i).
Proof.
  intros H. rewrite (nth_error_nth' _ (f 0%nat)) by now rewrite length_tab.
  now rewrite nth_tab.
Qed.

Lemma nth_error_concat_seq {A : Type} (m : nat) (L : nat -> list A) (n s i r : nat) :
  (forall a, length (L a) = m) -> (i < n)%nat -> (r < m)%nat ->
  nth_error (concat (map L (seq s n))) (i * m + r) = nth_error (L (s + i)%nat) r.
Proof.
  intros HL. revert s i. induction n as [|n IH]; intros s i Hi Hr; [lia|].
  cbn [seq map concat]. destruct i as [|i].
  - cbn [Nat.mul Nat.add]. rewrite Nat.add_0_r.
    apply nth_error_app1. now rewrite HL.
  - rewrite nth_error_app2 by (rewrite HL; cbn [Nat.mul]; lia).
    rewrite HL. replace (S i * m + r - m)%nat with (i * m + r)%nat by (cbn [Nat.mul]; lia).
    rewrite IH by lia. f_equal. f_equal. lia.
Qed.

Lemma nth_error_concat_tab {A : Type} (m : nat) (L : nat -> list A) (n i r : nat) :
  (forall a, length (L a) = m) -> (i < n)%nat -> (r < m)%nat ->
  nth_error (concat (tab n L)) (i * m + r) = nth_error (L i) r.
Proof. intros HL Hi Hr. unfold tab. now rewrite (nth_error_concat_seq m). Qed.

(** Row-major position of the entry [[i][j][k]] of a flattened array. *)
Lemma nth_error_grid_array_tab {A : Type} (f : R -> R -> R -> A) (n : nat)
      (u1 u2 u3 : nat -> R) (i j k : nat) :
  (i < n)%nat -> (j < n)%nat -> (k < n)%nat ->
  nth_error (concat (concat (grid_array f (tab n u1) (tab n u2) (tab n u3))))
            ((i * n + j) * n + k) =
  Some (f (u1 j) (u2 i) (u3 k)).
Proof.
  intros Hi Hj Hk. rewrite flatten_grid_array, map_tab.
  replace ((i * n + j) * n + k)%nat with (i * (n * n) + (j * n + k))%nat by lia.
  rewrite (nth_error_concat_tab (n * n)); [| |assumption|nia].
  - rewrite map_tab, (nth_error_concat_tab n); [| |assumption|assumption].
    + rewrite map_tab. now rewrite nth_error_tab.
    + intros a. now rewrite length_map, length_tab.
  - intros a. rewrite (length_row_block (tab n u1) (tab n u3) (fun x1 x3 => f x1 (u2 a) x3)).
    now rewrite !length_tab.
Qed.

Lemma linspace_tab (a b : R) (n : nat) : linspace a b n = tab n (linspace_pt a b n).
Proof. reflexivity. Qed.

Lemma grid_points_at (c : Config) (n i j k : nat) :
  (i < n)%nat -> (j < n)%nat -> (k < n)%nat ->
  nth_error (grid_points c n) ((i * n + j) * n + k) =
  Some (linspace_pt (a_1 c) (b_1 c) n j,
        linspace_pt (a_2 c) (b_2 c) n i,
        linspace_pt (a_3 c) (b_3 c) n k).
Proof.
  intros Hi Hj Hk. unfold grid_points, X1_g, X2_g, X3_g, meshgrid_g.
  rewrite zip3_meshgrid3, !linspace_tab.
  now apply (nth_error_grid_array_tab (fun x1 x2 x3 => (x1, x2, x3))).
Qed.

Lemma density_exp (c : Config) (i j k : R) :
  density c i j k = exp (log_density c i j k).
Proof. unfold density, log_density. now rewrite exp_plus. Qed.

Lemma linspace_first (a b : R) (n : nat) : linspace_pt a b n 0 = a.
Proof. unfold linspace_pt. cbn [INR]. lra. Qed.

Lemma linspace_last (a b : R) (n : nat) :
  (2 <= n)%nat -> linspace_pt a b n (n - 1) = b.
Proof.
  intros H. unfold linspace_pt.
  assert (0 < INR (n - 1)) by (apply lt_0_INR; lia).
  field. lra.
Qed.

Lemma P_at (c : Config) (n i j k : nat) :
  (i < n)%nat -> (j < n)%nat -> (k < n)%nat ->
  nth_error (P_ c n) ((i * n + j) * n + k) =
  Some (density c (linspace_pt (a_1 c) (b_1 c) n j)
                  (linspace_pt (a_2 c) (b_2 c) n i)
                  (linspace_pt (a_3 c) (b_3 c) n k)).
Proof.
  intros Hi Hj Hk. rewrite P_map, nth_error_map, grid_points_at by assumption.
  reflexivity.
Qed.

Lemma INR_grid_pts : INR (grid_pts - 1) = 99.
Proof.
  change (grid_pts - 1)%nat with 99%nat. rewrite INR_IZR_INZ. reflexivity.
Qed.

(** C5, as the code has it: every axis of the grid runs from its lower
    to its upper bound, both included; the entry of [P_] for the grid
    point with indices [(i, j, k)] is the product
    [exp(-(y-x1)^2/(2*sig)) * exp(-(0-x1+x2+x3)^2/(2*sig_e))], at every
    point of the grid, the boundary included; and it equals [exp] of the
    value of [log_prob] at the points strictly inside the box. *)
Theorem density_field_interior (i j k : nat) :
  (i < grid_pts)%nat -> (j < grid_pts)%nat -> (k < grid_pts)%nat ->
  let t := ((i * grid_pts + j) * grid_pts + k)%nat in
  let x1 := linspace_pt (a_1 notebook) (b_1 notebook) grid_pts j in
  let x2 := linspace_pt (a_2 notebook) (b_2 notebook) grid_pts i in
  let x3 := linspace_pt (a_3 notebook) (b_3 notebook) grid_pts k in
  (forall a b, linspace_pt a b grid_pts 0 = a /\
               linspace_pt a b grid_pts (grid_pts - 1) = b) /\
  nth_error (grid_points notebook grid_pts) t = Some (x1, x2, x3) /\
  nth_error (P_ notebook grid_pts) t = Some (density notebook x1 x2 x3) /\
  (a_1 notebook < x1 < b_1 notebook /\
   a_2 notebook < x2 < b_2 notebook /\
   a_3 notebook < x3 < b_3 notebook ->
   exists v, log_prob notebook (mkvec NdArray [x1; x2; x3]) = Ok v /\
             nth_error (P_ notebook grid_pts) t = Some (exp v)).
Proof.
  intros Hi Hj Hk t x1 x2 x3.
  split.
  { intros a b. split; [apply linspace_first|].
    apply linspace_last. unfold grid_pts. lia. }
  split; [now apply grid_points_at|].
  split; [now apply P_at|].
  intros Hin. exists (log_density notebook x1 x2 x3). split.
  - apply log_prob_inside;
      [exact notebook_sig_ne|exact notebook_sig_e_ne|exact notebook_moderate_y|].
    apply in_support3_true. cbn [a_1 a_2 a_3 b_1 b_2 b_3 notebook] in Hin. lra.
  - unfold t. rewrite P_at by assumption. now rewrite density_exp.
Qed.

Lemma grid_pts_pos : (1 < grid_pts)%nat.
Proof. unfold grid_pts. lia. Qed.

Lemma density_field_interior_witness :
  exists v,
    log_prob notebook
      (mkvec NdArray [linspace_pt 0 3 grid_pts 1; linspace_pt 0 3 grid_pts 1;
                      linspace_pt 0 3 grid_pts 1]) = Ok v /\
    nth_error (P_ notebook grid_pts) ((1 * grid_pts + 1) * grid_pts + 1) = Some (exp v).
Proof.
  apply (proj2 (proj2 (proj2
           (density_field_interior 1 1 1 grid_pts_pos grid_pts_pos grid_pts_pos)))).
  cbn [a_1 a_2 a_3 b_1 b_2 b_3 notebook]. unfold linspace_pt.
  rewrite INR_grid_pts. cbn [INR]. lra.
Defined.

(** C5 as the specification states it fails on the boundary: the first
    grid point is the corner [(0, 0, 0)], where [log_prob] returns the
    sentinel, and the entry of [P_] there is not [exp] of the sentinel. *)
Lemma density_field_boundary :
  exists x1 x2 x3 : R,
    nth_error (grid_points notebook grid_pts) 0 = Some (x1, x2, x3) /\
    (x1 = a_1 notebook /\ x2 = a_2 notebook /\ x3 = a_3 notebook) /\
    log_prob notebook (mkvec NdArray [x1; x2; x3]) = Ok sentinel /\
    nth_error (P_ notebook grid_pts) 0 <> Some (exp sentinel).
Proof.
  assert (H0 : (0 < grid_pts)%nat) by (pose proof grid_pts_pos; lia).
  pose proof (grid_points_at notebook grid_pts 0 0 0 H0 H0 H0) as Hg.
  pose proof (P_at notebook grid_pts 0 0 0 H0 H0 H0) as Hp.
  cbn [Nat.mul Nat.add] in Hg, Hp. rewrite !linspace_first in Hg, Hp.
  exists (a_1 notebook), (a_2 notebook), (a_3 notebook).
  split; [exact Hg|]. split; [auto|]. split.
  - apply log_prob_outside. apply in_support3_false. cbn. lra.
  - rewrite Hp, density_exp. intros E.
    injection E as E. apply exp_inv in E. revert E.
    unfold log_density, sentinel. cbn [y sig sig_e a_1 a_2 a_3 notebook]. lra.
Qed.

(** ** The analytical marginal against the quadrature *)

Lemma Rsum_tab_le (m : nat) (f : nat -> R) (b : R) :
  (forall j, (j < m)%nat -> f j <= b) -> Rsum (tab m f) <= INR m * b.
Proof.
  unfold tab. intros H.
  assert (G : forall s, (forall j, (s <= j < s + m)%nat -> f j <= b) ->
                        Rsum (map f (seq s m)) <= INR m * b).
  { clear H. induction m as [|m IH]; intros s H.
    - cbn. lra.
    - cbn [seq map Rsum fold_right]. fold (Rsum (map f (seq (S s) m))).
      rewrite S_INR. pose proof (H s ltac:(lia)).
      pose proof (IH (S s) ltac:(intros; apply H; lia)). lra. }
  apply G. intros j Hj. apply H. lia.
Qed.

Lemma Rsum_tab_ge (m : nat) (f : nat -> R) (j0 : nat) :
  (forall j, (j < m)%nat -> 0 <= f j) -> (j0 < m)%nat -> f j0 <= Rsum (tab m f).
Proof.
  unfold tab. intros H Hj0.
  assert (G : forall s, (forall j, (s <= j < s + m)%nat -> 0 <= f j) ->
                        (s <= j0 < s + m)%nat -> f j0 <= Rsum (map f (seq s m)) /\
                        0 <= Rsum (map f (seq s m))).
  { clear H Hj0. induction m as [|m IH]; intros s H Hj; [lia|].
    cbn [seq map Rsum fold_right]. fold (Rsum (map f (seq (S s) m))).
    pose proof (H s ltac:(lia)) as Hs.
    assert (Hnn : 0 <= Rsum (map f (seq (S s) m))).
    { clear IH Hj Hs. revert s H. induction m as [|m IHm]; intros s H; [cbn; lra|].
      cbn [seq map Rsum fold_right]. fold (Rsum (map f (seq (S (S s)) m))).
      pose proof (H (S s) ltac:(lia)).
      pose proof (IHm (S s) ltac:(intros; apply H; lia)). lra. }
    destruct (Nat.eq_dec j0 s) as [-> |Hne].
    - lra.
    - destruct (IH (S s) ltac:(intros; apply H; lia) ltac:(lia)). lra. }
  apply G; [intros; apply H; lia | lia].
Qed.

Lemma exp_le_1 (x : R) : x <= 0 -> exp x <= 1.
Proof.
  intros [H| ->].
  - rewrite <- exp_0. left. now apply exp_increasing.
  - rewrite exp_0. lra.
Qed.

Lemma density_bounds (i j k : R) : 0 < density notebook i j k <= 1.
Proof.
  unfold density. cbn [y sig sig_e notebook].
  set (p := - (1.5 - i) ^ 2 / (2 * 0.1)). set (q := - (0 - i + j + k) ^ 2 / (2 * 0.0001)).
  assert (Hp : p <= 0).
  { unfold p. pose proof (pow2_ge_0 (1.5 - i)). lra. }
  assert (Hq : q <= 0).
  { unfold q. pose proof (pow2_ge_0 (0 - i + j + k)). lra. }
  pose proof (exp_pos p). pose proof (exp_pos q).
  pose proof (exp_le_1 p Hp). pose proof (exp_le_1 q Hq).
  split; nra.
Qed.

Lemma linspace_pt_notebook (k : nat) : linspace_pt 0 3 grid_pts k = INR k / 33.
Proof. unfold linspace_pt. rewrite INR_grid_pts. lra. Qed.

Lemma marginal_x1_sum (x2 x3 : R) :
  marginal_x1 notebook grid_pts x2 x3 =
  Rsum (tab (grid_pts - 1)
          (fun j => (/ 33) * (density notebook (INR (S j) / 33) x2 x3
                              + density notebook (INR j / 33) x2 x3) / 2)).
Proof.
  unfold marginal_x1. cbn [a_1 b_1 notebook].
  rewrite linspace_tab, map_tab, trapezoid1_tab.
  f_equal. apply tab_ext. intros j _.
  rewrite !linspace_pt_notebook, S_INR. lra.
Qed.

Lemma marginal_x1_le (x2 x3 : R) : marginal_x1 notebook grid_pts x2 x3 <= 3.
Proof.
  rewrite marginal_x1_sum.
  replace 3 with (INR (grid_pts - 1) * (/ 33)) by (rewrite INR_grid_pts; lra).
  apply Rsum_tab_le. intros j _.
  pose proof (density_bounds (INR (S j) / 33) x2 x3).
  pose proof (density_bounds (INR j / 33) x2 x3). lra.
Qed.

Lemma marginal_x1_ge (x2 x3 : R) (j : nat) :
  (j < grid_pts - 1)%nat ->
  / 66 * density notebook (INR (S j) / 33) x2 x3 <= marginal_x1 notebook grid_pts x2 x3.
Proof.
  intros Hj. rewrite marginal_x1_sum.
  apply Rle_trans with
    (/ 33 * (density notebook (INR (S j) / 33) x2 x3
             + density notebook (INR j / 33) x2 x3) / 2).
  - pose proof (density_bounds (INR j / 33) x2 x3). lra.
  - apply (Rsum_tab_ge (grid_pts - 1)
             (fun j => / 33 * (density notebook (INR (S j) / 33) x2 x3
                               + density notebook (INR j / 33) x2 x3) / 2)); [|exact Hj].
    intros i _. pose proof (density_bounds (INR (S i) / 33) x2 x3).
    pose proof (density_bounds (INR i / 33) x2 x3). lra.
Qed.

(** The entries of the array the code computes are these integrals. *)
Lemma P_x2x3_entry (c : Config) (n i k : nat) :
  (i < n)%nat -> (k < n)%nat ->
  nth i (nth k (P_x2x3 c n) []) 0 =
  marginal_x1 c n (linspace_pt (a_2 c) (b_2 c) n i) (linspace_pt (a_3 c) (b_3 c) n k).
Proof.
  intros Hi Hk. rewrite P_x2x3_eq.
  rewrite (linspace_tab (a_3 c)), map_tab, nth_tab by assumption.
  rewrite (linspace_tab (a_2 c)), map_tab, nth_tab by assumption.
  reflexivity.
Qed.

Lemma exp_ge_sq (z : R) : 0 <= z -> (1 + z / 2) ^ 2 <= exp z.
Proof.
  intros Hz. replace z with (z / 2 + z / 2) at 2 by lra. rewrite exp_plus.
  pose proof (exp_ineq1_le (z / 2)). nra.
Qed.

Lemma INR_24 : INR 24 = 24.
Proof. rewrite INR_IZR_INZ. reflexivity. Qed.

Lemma INR_25 : INR 25 = 25.
Proof. rewrite INR_IZR_INZ. reflexivity. Qed.

Lemma analytical_gap :
  100 <= analytical notebook (24 / 33) (25 / 33) - analytical notebook (1 / 33) (1 / 33).
Proof.
  unfold analytical, term3, term6. cbn [y sig sig_e notebook]. lra.
Qed.

Lemma density_near_corner :
  density notebook (2 / 33) (1 / 33) (1 / 33) = exp (- (1.5 - 2 / 33) ^ 2 / (2 * 0.1)).
Proof.
  unfold density. cbn [y sig sig_e notebook].
  replace (- (0 - 2 / 33 + 1 / 33 + 1 / 33) ^ 2 / (2 * 0.0001)) with 0 by lra.
  rewrite exp_0. lra.
Qed.

Lemma exp_mono (x z : R) : x <= z -> exp x <= exp z.
Proof.
  intros [H| ->]; [left; now apply exp_increasing | lra].
Qed.

(** The exact integral over [x1], for any proof of integrability. *)

Lemma density_continuity (x2 x3 : R) :
  continuity (fun x1 => density notebook x1 x2 x3).
Proof. unfold density. cbn [y sig sig_e notebook]. reg. Qed.

Lemma density_integrable (x2 x3 a b : R) :
  a <= b -> Riemann_integrable (fun x1 => density notebook x1 x2 x3) a b.
Proof.
  intros H. apply continuity_implies_RiemannInt; [exact H|].
  intros x _. apply density_continuity.
Qed.

Lemma integral_le (x2 x3 : R)
      (pr : Riemann_integrable (fun x1 => density notebook x1 x2 x3) 0 3) :
  RiemannInt pr <= 3.
Proof.
  replace 3 with (1 * (3 - 0)) by lra.
  rewrite <- (RiemannInt_P15 (RiemannInt_P14 0 3 1)).
  apply RiemannInt_P19; [lra|]. intros x _. unfold fct_cte.
  apply density_bounds.
Qed.

Lemma integral_nonneg (x2 x3 a b : R)
      (pr : Riemann_integrable (fun x1 => density notebook x1 x2 x3) a b) :
  a <= b -> 0 <= RiemannInt pr.
Proof.
  intros H. replace 0 with (0 * (b - a)) by lra.
  rewrite <- (RiemannInt_P15 (RiemannInt_P14 a b 0)).
  apply RiemannInt_P19; [exact H|]. intros x _. unfold fct_cte.
  left. apply density_bounds.
Qed.

Lemma density_near_ridge (x : R) :
  0.05 < x < 0.07 -> exp (- 12) <= density notebook x (1 / 33) (1 / 33).
Proof.
  intros Hx. rewrite density_exp. apply exp_mono.
  unfold log_density. cbn [y sig sig_e notebook].
  assert (H1 : (1.5 - x) ^ 2 <= 2.2) by nra.
  assert (H2 : (0 - x + 1 / 33 + 1 / 33) ^ 2 <= 0.0002) by nra.
  lra.
Qed.

Lemma integral_ge
      (pr : Riemann_integrable (fun x1 => density notebook x1 (1 / 33) (1 / 33)) 0 3) :
  / 100 * exp (- 12) <= RiemannInt pr.
Proof.
  pose proof (density_integrable (1 / 33) (1 / 33) 0 0.05 ltac:(lra)) as pa.
  pose proof (density_integrable (1 / 33) (1 / 33) 0.05 0.07 ltac:(lra)) as pb.
  pose proof (density_integrable (1 / 33) (1 / 33) 0.07 3 ltac:(lra)) as pc.
  pose proof (density_integrable (1 / 33) (1 / 33) 0 0.07 ltac:(lra)) as pab.
  pose proof (RiemannInt_P26 pa pb pab) as E1.
  pose proof (RiemannInt_P26 pab pc pr) as E2.
  pose proof (integral_nonneg _ _ _ _ pa ltac:(lra)) as Na.
  pose proof (integral_nonneg _ _ _ _ pc ltac:(lra)) as Nc.
  assert (Nb : exp (- 12) * (0.07 - 0.05) <= RiemannInt pb).
  { rewrite <- (RiemannInt_P15 (RiemannInt_P14 0.05 0.07 (exp (- 12)))).
    apply RiemannInt_P19; [lra|]. intros x Hx. unfold fct_cte.
    now apply density_near_ridge. }
  pose proof (exp_pos (- 12)). lra.
Qed.

(** Two points whose factors differ, for any notion of integral over [x1]
    with these two bounds. *)
Lemma two_points_refute (C M1 M2 : R) :
  exp (analytical notebook (24 / 33) (25 / 33)) = C * M1 ->
  exp (analytical notebook (1 / 33) (1 / 33)) = C * M2 ->
  M1 <= 3 -> / 100 * exp (- 12) <= M2 -> False.
Proof.
  intros E1 E2 U1 L2. pose proof analytical_gap as G.
  set (A1 := analytical notebook (24 / 33) (25 / 33)) in *.
  set (A2 := analytical notebook (1 / 33) (1 / 33)) in *.
  assert (X : exp A1 * M2 = exp A2 * M1) by (rewrite E1, E2; ring).
  pose proof (exp_pos A1) as P1. pose proof (exp_pos A2) as P2.
  pose proof (exp_pos (- 12)) as Pq.
  assert (B : exp A1 * exp (- 12) <= 300 * exp A2) by nra.
  assert (Z1 : exp (A1 - 12 - A2) * exp A2 = exp A1 * exp (- 12)).
  { rewrite <- !exp_plus. f_equal. lra. }
  assert (Z2 : exp (A1 - 12 - A2) <= 300) by nra.
  pose proof (exp_ge_sq (A1 - 12 - A2) ltac:(lra)) as Z3.
  nra.
Qed.

Lemma marginal_x1_corner_ge :
  / 100 * exp (- 12) <= marginal_x1 notebook grid_pts (1 / 33) (1 / 33).
Proof.
  assert (L2 : / 66 * density notebook (INR 2 / 33) (1 / 33) (1 / 33)
               <= marginal_x1 notebook grid_pts (1 / 33) (1 / 33)).
  { apply marginal_x1_ge. unfold grid_pts. cbn [Nat.sub]. lia. }
  cbn [INR] in L2. replace (1 + 1) with 2 in L2 by lra.
  rewrite density_near_corner in L2.
  assert (Hm : exp (- 12) <= exp (- (1.5 - 2 / 33) ^ 2 / (2 * 0.1)))
    by (apply exp_mono; lra).
  pose proof (exp_pos (- 12)). lra.
Qed.

(** C9: [log_prob] and the grid loop divide the squared residuals by
    [2*sig] and [2*sig_e], the analytical cell by [2*sig^2] and
    [2*sig_e^2], with the same [sig = 0.1] and [sig_e = 0.0001]; and no
    constant factor makes [exp] of the analytical value equal to the
    integral over [x1] of the density of the quadrature and the sampler at
    every point [(x2, x3)] of the box: the points [(24/33, 25/33)] and
    [(1/33, 1/33)] need different factors.  This holds for the entries of
    the array the trapezoidal cell computes, for the trapezoidal rule at
    arbitrary points of the box, and for the exact integral over
    [[0, 3]]. *)
Theorem analytical_not_proportional :
  (forall k x1 x2 x3,
     log_prob notebook (mkvec k [x1; x2; x3]) =
     Ok (if in_support [x1; x2; x3]
         then - ((1.5 - x1) ^ 2) / (2 * 0.1) + - ((0 - x1 + x2 + x3) ^ 2) / (2 * 0.0001)
         else sentinel))
  /\ P_ notebook grid_pts =
     map (fun p => let '(i, j, k) := p in
                   exp (- ((1.5 - i) ^ 2) / (2 * 0.1))
                   * exp (- ((0 - i + j + k) ^ 2) / (2 * 0.0001)))
         (grid_points notebook grid_pts)
  /\ (forall x2 x3, analytical notebook x2 x3 = spec_logC x2 x3 1.5 0.1 0.0001)
  /\ (~ exists C : R,
         forall i k, (i < grid_pts)%nat -> (k < grid_pts)%nat ->
           exp (analytical notebook (linspace_pt (a_2 notebook) (b_2 notebook) grid_pts i)
                                    (linspace_pt (a_3 notebook) (b_3 notebook) grid_pts k))
           = C * nth i (nth k (P_x2x3 notebook grid_pts) []) 0)
  /\ (~ exists C : R,
         forall x2 x3,
           a_2 notebook <= x2 <= b_2 notebook -> a_3 notebook <= x3 <= b_3 notebook ->
           exp (analytical notebook x2 x3) = C * marginal_x1 notebook grid_pts x2 x3)
  /\ (~ exists C : R,
         forall x2 x3,
           a_2 notebook <= x2 <= b_2 notebook -> a_3 notebook <= x3 <= b_3 notebook ->
           exists pr : Riemann_integrable (fun x1 => density notebook x1 x2 x3)
                                          (a_1 notebook) (b_1 notebook),
             exp (analytical notebook x2 x3) = C * RiemannInt pr).
Proof.
  split; [intros; apply (log_prob_three notebook);
          [cbn; lra|cbn; lra|exact notebook_moderate_y]|].
  split; [apply P_map|].
  split; [intros; apply (analytical_spec_logC notebook); cbn; lra|].
  split; [|split].
  - intros [C H].
    assert (H24 : (24 < grid_pts)%nat) by (unfold grid_pts; lia).
    assert (H25 : (25 < grid_pts)%nat) by (unfold grid_pts; lia).
    assert (H1 : (1 < grid_pts)%nat) by (unfold grid_pts; lia).
    pose proof (H 24%nat 25%nat H24 H25) as E1.
    pose proof (H 1%nat 1%nat H1 H1) as E2.
    rewrite P_x2x3_entry in E1, E2 by assumption.
    cbn [a_2 a_3 b_2 b_3 notebook] in E1, E2.
    rewrite (linspace_pt_notebook 24), (linspace_pt_notebook 25) in E1.
    rewrite (linspace_pt_notebook 1) in E2.
    rewrite INR_24, INR_25 in E1. cbn [INR] in E2.
    exact (two_points_refute C _ _ E1 E2 (marginal_x1_le _ _) marginal_x1_corner_ge).
  - intros [C H]. cbn [a_2 a_3 b_2 b_3 notebook] in H.
    pose proof (H (24 / 33) (25 / 33) ltac:(lra) ltac:(lra)) as E1.
    pose proof (H (1 / 33) (1 / 33) ltac:(lra) ltac:(lra)) as E2.
    exact (two_points_refute C _ _ E1 E2 (marginal_x1_le _ _) marginal_x1_corner_ge).
  - intros [C H]. cbn [a_1 b_1 a_2 a_3 b_2 b_3 notebook] in H.
    destruct (H (24 / 33) (25 / 33) ltac:(lra) ltac:(lra)) as [pr1 E1].
    destruct (H (1 / 33) (1 / 33) ltac:(lra) ltac:(lra)) as [pr2 E2].
    exact (two_points_refute C _ _ E1 E2 (integral_le _ _ pr1) (integral_ge pr2)).
Qed.

(** * Further properties of the cells *)

(** ** Sums and the one-dimensional rule *)

Lemma Rsum_map_scal {A : Type} (k : R) (f : A -> R) (l : list A) :
  Rsum (map (fun i => k * f i) l) = k * Rsum (map f l).
Proof.
  induction l as [|a l IH]; cbn [map Rsum fold_right]; [lra|].
  fold (Rsum (map (fun i => k * f i) l)). fold (Rsum (map f l)). rewrite IH. lra.
Qed.

Lemma Rsum_map_plus {A : Type} (f h : A -> R) (l : list A) :
  Rsum (map (fun i => f i + h i) l) = Rsum (map f l) + Rsum (map h l).
Proof.
  induction l as [|a l IH]; cbn [map Rsum fold_right]; [lra|].
  fold (Rsum (map (fun i => f i + h i) l)). fold (Rsum (map f l)).
  fold (Rsum (map h l)). rewrite IH. lra.
Qed.

Lemma Rsum_map_zero {A : Type} (l : list A) : Rsum (map (fun _ => 0) l) = 0.
Proof.
  induction l as [|a l IH]; cbn [map Rsum fold_right]; [reflexivity|].
  fold (Rsum (map (fun _ : A => 0) l)). rewrite IH. lra.
Qed.

Lemma Rsum_map_swap {A B : Type} (F : A -> B -> R) (l1 : list A) (l2 : list B) :
  Rsum (map (fun i => Rsum (map (F i) l2)) l1) =
  Rsum (map (fun k => Rsum (map (fun i => F i k) l1)) l2).
Proof.
  induction l1 as [|a l1 IH]; cbn [map Rsum fold_right].
  - now rewrite Rsum_map_zero.
  - fold (Rsum (map (fun i => Rsum (map (F i) l2)) l1)). rewrite IH.
    rewrite <- Rsum_map_plus. f_equal.
Qed.

Lemma Rsum_tab_scal (n : nat) (k : R) (f : nat -> R) :
  Rsum (tab n (fun i => k * f i)) = k * Rsum (tab n f).
Proof. apply Rsum_map_scal. Qed.

Lemma Rsum_tab_pos (n : nat) (f : nat -> R) :
  (0 < n)%nat -> (forall i, 0 < f i) -> 0 < Rsum (tab n f).
Proof.
  intros Hn Hf. unfold tab. generalize 0%nat as s.
  induction n as [|n IH]; [lia|]. intros s.
  cbn [seq map Rsum fold_right]. fold (Rsum (map f (seq (S s) n))).
  destruct n as [|n].
  - cbn. pose proof (Hf s). lra.
  - pose proof (IH ltac:(lia) (S s)). pose proof (Hf s). lra.
Qed.

Lemma linspace_step (a b : R) (n j : nat) :
  linspace_pt a b n (S j) - linspace_pt a b n j = (b - a) / INR (n - 1).
Proof. unfold linspace_pt. rewrite S_INR. lra. Qed.

(** On an evenly spaced grid the rule is the spacing times the sum of the
    trapezoid means. *)
Lemma trapezoid1_uniform (a b : R) (n : nat) (u : nat -> R) :
  trapezoid1 (tab n u) (linspace a b n) = (b - a) / INR (n - 1) * unit_trapz n u.
Proof.
  rewrite linspace_tab, trapezoid1_tab. unfold unit_trapz.
  rewrite <- Rsum_tab_scal. f_equal. apply tab_ext. intros j _.
  rewrite linspace_step. lra.
Qed.

Lemma unit_trapz_scal (n : nat) (k : R) (u : nat -> R) :
  unit_trapz n (fun j => k * u j) = k * unit_trapz n u.
Proof.
  unfold unit_trapz. rewrite <- Rsum_tab_scal. f_equal.
  apply tab_ext. intros j _. lra.
Qed.

Lemma unit_trapz_ext (n : nat) (u v : nat -> R) :
  (forall j, u j = v j) -> unit_trapz n u = unit_trapz n v.
Proof.
  intros H. unfold unit_trapz. f_equal. apply tab_ext. intros j _.
  now rewrite !H.
Qed.

Lemma unit_trapz_pos (n : nat) (u : nat -> R) :
  (2 <= n)%nat -> (forall j, 0 < u j) -> 0 < unit_trapz n u.
Proof.
  intros Hn Hu. unfold unit_trapz. apply Rsum_tab_pos; [lia|].
  intros j. pose proof (Hu j). pose proof (Hu (S j)). lra.
Qed.

Lemma trapz_over_linspace (f : R -> R) (a b : R) (n : nat) :
  trapz_over f (linspace a b n) =
  (b - a) / INR (n - 1) * unit_trapz n (fun j => f (linspace_pt a b n j)).
Proof.
  unfold trapz_over. rewrite linspace_tab at 1. rewrite map_tab.
  apply trapezoid1_uniform.
Qed.

Lemma trapz_over_ext (f h : R -> R) (g : list R) :
  (forall x, f x = h x) -> trapz_over f g = trapz_over h g.
Proof.
  intros H. unfold trapz_over. f_equal. apply map_ext. intros x. apply H.
Qed.

(** ** The fields the plots integrate *)

(** The array eliminated over [x1], for any field laid out like [P_]. *)
Lemma marginal_23_grid_array (c : Config) (n : nat) (f : R -> R -> R -> R) :
  marginal_23 c n
    (flatten3 (grid_array f (linspace (a_1 c) (b_1 c) n)
                 (linspace (a_2 c) (b_2 c) n) (linspace (a_3 c) (b_3 c) n))) =
  map (fun x3 =>
         map (fun x2 => trapz_over (fun x1 => f x1 x2 x3) (linspace (a_1 c) (b_1 c) n))
             (linspace (a_2 c) (b_2 c) n))
      (linspace (a_3 c) (b_3 c) n).
Proof.
  unfold marginal_23, field_T. rewrite shape3_X1_g.
  rewrite <- (length_linspace (a_2 c) (b_2 c) n) at 1.
  rewrite <- (length_linspace (a_1 c) (b_1 c) n) at 2.
  rewrite <- (length_linspace (a_3 c) (b_3 c) n) at 3.
  rewrite reshape3_grid_array.
  unfold X1_g, meshgrid_g. rewrite meshgrid3_grid_array. cbn [fst].
  apply (inner_trapezoid f n); apply length_linspace.
Qed.

Lemma marginal_3_grid_array (c : Config) (n : nat) (f : R -> R -> R -> R) :
  marginal_3 c n
    (flatten3 (grid_array f (linspace (a_1 c) (b_1 c) n)
                 (linspace (a_2 c) (b_2 c) n) (linspace (a_3 c) (b_3 c) n))) =
  map (fun x3 =>
         trapz_over (fun x2 =>
                       trapz_over (fun x1 => f x1 x2 x3) (linspace (a_1 c) (b_1 c) n))
                    (linspace (a_2 c) (b_2 c) n))
      (linspace (a_3 c) (b_3 c) n).
Proof.
  unfold marginal_3. rewrite marginal_23_grid_array.
  unfold X2_c, meshgrid_c, meshgrid2. cbn [fst].
  unfold trapezoid_2d_axis1. rewrite (map2_map trapezoid1). reflexivity.
Qed.

Lemma P_E_trapz_n_marginal_3 (c : Config) (n : nat) :
  P_E_trapz_n c n = trapezoid1 (marginal_3 c n (P_ c n)) (linspace (a_3 c) (b_3 c) n).
Proof. reflexivity. Qed.

Lemma P_E_trapz_n_nested (c : Config) (n : nat) :
  P_E_trapz_n c n =
  trapz_over (fun x3 =>
    trapz_over (fun x2 =>
      trapz_over (fun x1 => density c x1 x2 x3) (linspace (a_1 c) (b_1 c) n))
      (linspace (a_2 c) (b_2 c) n))
    (linspace (a_3 c) (b_3 c) n).
Proof.
  rewrite P_E_trapz_n_marginal_3, P_grid_array, marginal_3_grid_array. reflexivity.
Qed.

Lemma density_pos (c : Config) (i j k : R) : 0 < density c i j k.
Proof. unfold density. apply Rmult_lt_0_compat; apply exp_pos. Qed.

Lemma P_E_trapz_n_factor (c : Config) (n : nat) :
  P_E_trapz_n c n =
  (b_1 c - a_1 c) / INR (n - 1) * ((b_2 c - a_2 c) / INR (n - 1))
  * ((b_3 c - a_3 c) / INR (n - 1)) * unit_sum c n.
Proof.
  rewrite P_E_trapz_n_nested, trapz_over_linspace.
  rewrite (unit_trapz_ext n _
             (fun k => (b_2 c - a_2 c) / INR (n - 1) *
                ((b_1 c - a_1 c) / INR (n - 1) *
                 unit_trapz n (fun i => unit_trapz n (fun j =>
                   density c (linspace_pt (a_1 c) (b_1 c) n j)
                             (linspace_pt (a_2 c) (b_2 c) n i)
                             (linspace_pt (a_3 c) (b_3 c) n k)))))).
  - rewrite unit_trapz_scal, unit_trapz_scal. unfold unit_sum. lra.
  - intros k. rewrite trapz_over_linspace. f_equal.
    rewrite <- unit_trapz_scal. apply unit_trapz_ext. intros i.
    apply trapz_over_linspace.
Qed.

Lemma unit_sum_pos (c : Config) (n : nat) : (2 <= n)%nat -> 0 < unit_sum c n.
Proof.
  intros Hn. unfold unit_sum.
  apply unit_trapz_pos; [exact Hn|]. intros k.
  apply unit_trapz_pos; [exact Hn|]. intros i.
  apply unit_trapz_pos; [exact Hn|]. intros j. apply density_pos.
Qed.

(** ** The normalising constant and the normalisation *)

Lemma grid_pts_ge_2 : (2 <= grid_pts)%nat.
Proof. unfold grid_pts. lia. Qed.

Lemma INR_pred_pos (n : nat) : (2 <= n)%nat -> 0 < INR (n - 1).
Proof. intros H. apply lt_0_INR. lia. Qed.

Lemma P_E_trapz_n_product (c : Config) (n : nat) :
  (2 <= n)%nat ->
  exists S : R, 0 < S /\
    P_E_trapz_n c n = (b_1 c - a_1 c) * (b_2 c - a_2 c) * (b_3 c - a_3 c) * S.
Proof.
  intros Hn. pose proof (INR_pred_pos n Hn) as Hp.
  pose proof (unit_sum_pos c n Hn) as HS.
  exists (unit_sum c n / (INR (n - 1) * INR (n - 1) * INR (n - 1))). split.
  - apply Rdiv_lt_0_compat; [exact HS|]. repeat apply Rmult_lt_0_compat; exact Hp.
  - rewrite P_E_trapz_n_factor. field. lra.
Qed.

Lemma unit_trapz_nonneg (n : nat) (u : nat -> R) :
  (forall j, 0 <= u j) -> 0 <= unit_trapz n u.
Proof.
  intros Hu. unfold unit_trapz, tab.
  induction (seq 0 (n - 1)) as [|j l IH]; cbn [map Rsum fold_right]; [lra|].
  unfold Rsum in IH. pose proof (Hu j). pose proof (Hu (S j)). lra.
Qed.

(** The normalising constant, on a grid of any size [n >= 2] (the
    notebook's [P_E_trapz] is [P_E_trapz_n c grid_pts]), is the product of
    the three grid steps [(b_i - a_i) / (n - 1)] and of the nested
    unit-spacing sum of the densities, which is not negative: the
    constant is not negative for a box with [a_i <= b_i] and not positive
    when one axis is reversed. *)
Theorem P_E_trapz_sign (c : Config) (n : nat) :
  0 < sig c -> 0 < sig_e c -> (2 <= n)%nat ->
  P_E_trapz_n c n =
    (b_1 c - a_1 c) / INR (n - 1) * ((b_2 c - a_2 c) / INR (n - 1))
    * ((b_3 c - a_3 c) / INR (n - 1)) * unit_sum c n
  /\ 0 <= unit_sum c n
  /\ (a_1 c <= b_1 c -> a_2 c <= b_2 c -> a_3 c <= b_3 c -> 0 <= P_E_trapz_n c n)
  /\ (b_1 c <= a_1 c -> a_2 c <= b_2 c -> a_3 c <= b_3 c -> P_E_trapz_n c n <= 0).
Proof.
  intros _ _ Hn.
  pose proof (INR_pred_pos n Hn) as Hp.
  assert (HS : 0 <= unit_sum c n).
  { unfold unit_sum.
    apply unit_trapz_nonneg. intros k.
    apply unit_trapz_nonneg. intros i.
    apply unit_trapz_nonneg. intros j. left. apply density_pos. }
  assert (Hw : forall a b, a <= b -> 0 <= (b - a) / INR (n - 1)).
  { intros a b H. apply Rmult_le_pos; [lra|]. left. now apply Rinv_0_lt_compat. }
  split; [apply P_E_trapz_n_factor|]. split; [exact HS|]. split.
  - intros H1 H2 H3. rewrite P_E_trapz_n_factor.
    apply Rmult_le_pos; [apply Rmult_le_pos; [apply Rmult_le_pos|]|]; auto.
  - intros H1 H2 H3. rewrite P_E_trapz_n_factor.
    pose proof (Hw _ _ H1) as W1. pose proof (Hw _ _ H2) as W2.
    pose proof (Hw _ _ H3) as W3.
    replace ((b_1 c - a_1 c) / INR (n - 1))
      with (- ((a_1 c - b_1 c) / INR (n - 1))) by (unfold Rdiv; ring).
    assert (0 <= (a_1 c - b_1 c) / INR (n - 1) * ((b_2 c - a_2 c) / INR (n - 1))
                 * ((b_3 c - a_3 c) / INR (n - 1)) * unit_sum c n)
      by (apply Rmult_le_pos; [apply Rmult_le_pos; [apply Rmult_le_pos|]|]; auto).
    lra.
Qed.

Lemma P_E_trapz_sign_witness : 0 <= P_E_trapz_n notebook grid_pts.
Proof.
  apply (proj1 (proj2 (proj2 (P_E_trapz_sign notebook grid_pts
                         ltac:(cbn [sig notebook]; lra)
                         ltac:(cbn [sig_e notebook]; lra) grid_pts_ge_2))));
    cbn [a_1 a_2 a_3 b_1 b_2 b_3 notebook]; lra.
Defined.

Lemma array_div_ok (l P : list R) (z : R) :
  l <> [] -> array_div l z = Ok P -> z <> 0 /\ P = map (fun p => p / z) l.
Proof.
  intros Hl. unfold array_div. destruct l as [|p l]; [contradiction|].
  destruct (Req_dec_T z 0) as [|Hz]; [discriminate|].
  intros H. apply Ok_inj in H. now split.
Qed.

Lemma array_div_nonzero (l : list R) (z : R) :
  l <> [] -> z <> 0 -> array_div l z = Ok (map (fun p => p / z) l).
Proof.
  intros Hl Hz. unfold array_div. destruct l as [|p l]; [contradiction|].
  destruct (Req_dec_T z 0); [contradiction|reflexivity].
Qed.


Lemma P_nonempty (c : Config) (n : nat) : (2 <= n)%nat -> P_ c n <> [].
Proof.
  intros Hn E. pose proof (length_P c n) as H. rewrite E in H. cbn [length] in H.
  nia.
Qed.

Lemma trapz_over_div (f : R -> R) (z a b : R) (n : nat) :
  trapz_over (fun x => f x / z) (linspace a b n) = trapz_over f (linspace a b n) / z.
Proof.
  rewrite !trapz_over_linspace.
  rewrite (unit_trapz_ext n _ (fun j => / z * f (linspace_pt a b n j)))
    by (intros; unfold Rdiv; ring).
  rewrite unit_trapz_scal. unfold Rdiv. ring.
Qed.

(** The field after the normalisation has the layout of [P_], with every
    value divided by the normalising constant. *)
Lemma P_normalised_n_grid_array (c : Config) (n : nat) (P : list R) :
  (2 <= n)%nat ->
  P_normalised_n c n = Ok P ->
  P_E_trapz_n c n <> 0 /\
  P = flatten3 (grid_array (fun x1 x2 x3 => density c x1 x2 x3 / P_E_trapz_n c n)
                 (linspace (a_1 c) (b_1 c) n)
                 (linspace (a_2 c) (b_2 c) n)
                 (linspace (a_3 c) (b_3 c) n)).
Proof.
  intros Hn H. unfold P_normalised_n in H.
  apply array_div_ok in H; [|now apply P_nonempty]. destruct H as [Hz ->].
  split; [exact Hz|].
  rewrite P_grid_array. unfold flatten3.
  apply (map_grid_array _ _ _ (fun p => p / P_E_trapz_n c n) (density c)).
Qed.

Lemma P_normalised_n_ok (c : Config) (n : nat) :
  (2 <= n)%nat -> P_E_trapz_n c n <> 0 -> exists P, P_normalised_n c n = Ok P.
Proof.
  intros Hn Hz. eexists. unfold P_normalised_n.
  apply array_div_nonzero; [now apply P_nonempty|exact Hz].
Qed.



(** ** The arrays of the plot cell *)

Lemma map2_tab3 {A B C : Type} (g : A -> B -> C) (n m p : nat)
      (a : nat -> nat -> nat -> A) (b : nat -> nat -> nat -> B) :
  map2 (map2 (map2 g))
       (tab n (fun i => tab m (fun j => tab p (a i j))))
       (tab n (fun i => tab m (fun j => tab p (b i j)))) =
  tab n (fun i => tab m (fun j => tab p (fun k => g (a i j k) (b i j k)))).
Proof.
  rewrite map2_tab. apply tab_ext. intros i _.
  apply (map2_tab2 g m p (a i) (b i)).
Qed.

Lemma hd_hd_tab_length (n : nat) (F : nat -> nat -> nat -> R) :
  length (hd [] (hd [] (tab n (fun a => tab n (fun j => tab n (F a j)))))) = n.
Proof.
  destruct n as [|n]; [reflexivity|]. rewrite !hd_tab_S. apply length_tab.
Qed.

(** Integrating the first axis of a three-dimensional array whose [x]
    slabs are constant integrates every line along that axis with the
    one-dimensional rule. *)
Lemma trapezoid_3d_axis0_tab (n : nat) (F : nat -> nat -> nat -> R) (v : nat -> R) :
  trapezoid_3d_axis0
    (tab n (fun a => tab n (fun j => tab n (F a j))))
    (tab n (fun a => tab n (fun _ => tab n (fun _ => v a)))) =
  tab n (fun j => tab n (fun b => trapezoid1 (tab n (fun a => F a j b)) (tab n v))).
Proof.
  unfold trapezoid_3d_axis0.
  rewrite hd_hd_tab_length.
  rewrite (hd_tab_length n n) by (intros; try apply length_tab; lia).
  rewrite !tl_tab, !removelast_tab.
  rewrite (map2_tab3 Rminus (n - 1) n n (fun a _ _ => v (S a)) (fun a _ _ => v a)).
  rewrite (map2_tab3 Rplus (n - 1) n n (fun a => F (S a)) F).
  rewrite (map2_tab3 (fun d s => d * s / 2) (n - 1) n n
             (fun a _ _ => v (S a) - v a) (fun a j b => F (S a) j b + F a j b)).
  apply tab_ext. intros j Hj. apply tab_ext. intros b Hb.
  rewrite map_tab, trapezoid1_tab. f_equal.
  apply tab_ext. intros a _. now rewrite !nth_tab.
Qed.

Section Fields.
Variable c : Config.
Variable n : nat.
Variable f : R -> R -> R -> R.

Let g1 := linspace (a_1 c) (b_1 c) n.
Let g2 := linspace (a_2 c) (b_2 c) n.
Let g3 := linspace (a_3 c) (b_3 c) n.

Lemma field_T_grid_array :
  field_T c n (flatten3 (grid_array f g1 g2 g3)) =
  tab n (fun k => tab n (fun j => tab n (fun i =>
    f (linspace_pt (a_1 c) (b_1 c) n j) (linspace_pt (a_2 c) (b_2 c) n i)
      (linspace_pt (a_3 c) (b_3 c) n k)))).
Proof.
  unfold field_T. rewrite shape3_X1_g.
  rewrite <- (length_linspace (a_2 c) (b_2 c) n) at 1.
  rewrite <- (length_linspace (a_1 c) (b_1 c) n) at 2.
  rewrite <- (length_linspace (a_3 c) (b_3 c) n) at 3.
  fold g1 g2 g3. rewrite reshape3_grid_array.
  unfold g1, g2, g3. rewrite !linspace_tab, grid_array_tab.
  apply (transpose3_tab n (fun i j k =>
    f (linspace_pt (a_1 c) (b_1 c) n j) (linspace_pt (a_2 c) (b_2 c) n i)
      (linspace_pt (a_3 c) (b_3 c) n k))).
Qed.

(** The array of the second plot: for every [x1] the values along [x3]
    are integrated against the [x2] grid, then the result over [x2]. *)
Lemma marginal_1_grid_array :
  marginal_1 c n (flatten3 (grid_array f g1 g2 g3)) =
  map (fun x1 =>
         trapezoid1
           (map (fun x2 => trapezoid1 (map (fun x3 => f x1 x2 x3) g3) g2) g2)
           g2)
      g1.
Proof.
  unfold marginal_1. rewrite field_T_grid_array.
  unfold X2_g, meshgrid_g. rewrite meshgrid3_grid_array. cbn [fst snd].
  unfold X2_c, meshgrid_c, meshgrid2. cbn [fst].
  unfold g1, g2, g3. rewrite !linspace_tab, grid_array_tab.
  rewrite (trapezoid_3d_axis0_tab n
             (fun a j b => f (linspace_pt (a_1 c) (b_1 c) n j)
                             (linspace_pt (a_2 c) (b_2 c) n b)
                             (linspace_pt (a_3 c) (b_3 c) n a))
             (linspace_pt (a_2 c) (b_2 c) n)).
  unfold trapezoid_2d_axis1. rewrite map_tab, map2_tab, map_tab.
  apply tab_ext. intros j _. rewrite map_tab. f_equal.
  apply tab_ext. intros b _. now rewrite map_tab.
Qed.

(** The array of the third plot: for every [x2], over [x1] and then over
    [x3], each against its own grid. *)
Lemma marginal_2_grid_array :
  marginal_2 c n (flatten3 (grid_array f g1 g2 g3)) =
  map (fun x2 => trapz_over (fun x3 => trapz_over (fun x1 => f x1 x2 x3) g1) g3) g2.
Proof.
  unfold marginal_2. fold g1 g2 g3. rewrite marginal_23_grid_array.
  unfold X3_c, meshgrid_c, meshgrid2. cbn [snd].
  unfold g1, g2, g3. rewrite !linspace_tab, !map_tab.
  rewrite (tab_ext n _ (fun k => tab n (fun i =>
             trapz_over (fun x1 => f x1 (linspace_pt (a_2 c) (b_2 c) n i)
                                       (linspace_pt (a_3 c) (b_3 c) n k))
                        (tab n (linspace_pt (a_1 c) (b_1 c) n)))))
    by (intros; now rewrite map_tab).
  rewrite (tab_ext n (fun i => map _ _) (fun k => tab n (fun _ => linspace_pt (a_3 c) (b_3 c) n k)))
    by (intros; now rewrite map_tab).
  rewrite (trapezoid_2d_axis0_tab n
             (fun k i => trapz_over (fun x1 => f x1 (linspace_pt (a_2 c) (b_2 c) n i)
                                                 (linspace_pt (a_3 c) (b_3 c) n k))
                                    (tab n (linspace_pt (a_1 c) (b_1 c) n)))
             (linspace_pt (a_3 c) (b_3 c) n)).
  apply tab_ext. intros i _. unfold trapz_over at 2. now rewrite map_tab.
Qed.

End Fields.

(** ** Exchanging the order of two integrations *)

Lemma Rsum_tab_mean (m : nat) (a b : nat -> R) :
  (Rsum (tab m a) + Rsum (tab m b)) / 2 = Rsum (tab m (fun k => (a k + b k) / 2)).
Proof.
  unfold tab. rewrite <- Rsum_map_plus.
  rewrite (map_ext (fun k => (a k + b k) / 2) (fun k => / 2 * (a k + b k)))
    by (intros; lra).
  rewrite Rsum_map_scal. lra.
Qed.

Lemma unit_trapz_swap (n m : nat) (F : nat -> nat -> R) :
  unit_trapz n (fun i => unit_trapz m (fun k => F i k)) =
  unit_trapz m (fun k => unit_trapz n (fun i => F i k)).
Proof.
  unfold unit_trapz.
  rewrite (tab_ext (n - 1) _
             (fun i => Rsum (tab (m - 1) (fun k =>
                ((F (S i) (S k) + F (S i) k) / 2 + (F i (S k) + F i k) / 2) / 2))))
    by (intros; apply Rsum_tab_mean).
  rewrite (tab_ext (m - 1) (fun k => (Rsum _ + Rsum _) / 2)
             (fun k => Rsum (tab (n - 1) (fun i =>
                ((F (S i) (S k) + F i (S k)) / 2 + (F (S i) k + F i k) / 2) / 2))))
    by (intros; apply Rsum_tab_mean).
  unfold tab. rewrite Rsum_map_swap. f_equal. apply map_ext. intros k.
  f_equal. apply map_ext. intros i. lra.
Qed.

Lemma trapz_over_scal (f : R -> R) (k a b : R) (n : nat) :
  trapz_over (fun x => k * f x) (linspace a b n) = k * trapz_over f (linspace a b n).
Proof.
  rewrite !trapz_over_linspace, unit_trapz_scal. ring.
Qed.

Lemma trapz_over_swap (F : R -> R -> R) (a b a' b' : R) (n : nat) :
  trapz_over (fun x => trapz_over (fun z => F x z) (linspace a' b' n)) (linspace a b n) =
  trapz_over (fun z => trapz_over (fun x => F x z) (linspace a b n)) (linspace a' b' n).
Proof.
  rewrite (trapz_over_linspace _ a b), (trapz_over_linspace _ a' b').
  rewrite (unit_trapz_ext n _
             (fun i => (b' - a') / INR (n - 1) *
                unit_trapz n (fun k => F (linspace_pt a b n i) (linspace_pt a' b' n k))))
    by (intros; apply trapz_over_linspace).
  rewrite (unit_trapz_ext n (fun k => trapz_over _ _)
             (fun k => (b - a) / INR (n - 1) *
                unit_trapz n (fun i => F (linspace_pt a b n i) (linspace_pt a' b' n k))))
    by (intros; apply trapz_over_linspace).
  rewrite !unit_trapz_scal, unit_trapz_swap. ring.
Qed.

Section Areas.
Variable c : Config.
Variable n : nat.
Hypothesis Hn : (2 <= n)%nat.
Variable P : list R.
Hypothesis HP : P_normalised_n c n = Ok P.

Let Z := P_E_trapz_n c n.
Let g1 := linspace (a_1 c) (b_1 c) n.
Let g2 := linspace (a_2 c) (b_2 c) n.
Let g3 := linspace (a_3 c) (b_3 c) n.

Lemma normalised_P :
  Z <> 0 /\ P = flatten3 (grid_array (fun x1 x2 x3 => density c x1 x2 x3 / Z) g1 g2 g3).
Proof. apply P_normalised_n_grid_array; assumption. Qed.

Lemma nested_is_Z :
  trapz_over (fun x3 => trapz_over (fun x2 =>
    trapz_over (fun x1 => density c x1 x2 x3) g1) g2) g3 = Z.
Proof. symmetry. apply P_E_trapz_n_nested. Qed.

Lemma marginal_23_normalised :
  marginal_23 c n P =
  map (fun x3 => map (fun x2 => trapz_over (fun x1 => density c x1 x2 x3) g1 / Z) g2) g3.
Proof.
  destruct normalised_P as [_ ->]. unfold g1, g2, g3.
  rewrite marginal_23_grid_array.
  apply map_ext. intros x3. apply map_ext. intros x2. apply trapz_over_div.
Qed.

Lemma marginal_3_normalised :
  marginal_3 c n P =
  map (fun x3 => trapz_over (fun x2 => trapz_over (fun x1 => density c x1 x2 x3) g1) g2 / Z)
      g3.
Proof.
  destruct normalised_P as [_ ->]. unfold g1, g2, g3.
  rewrite marginal_3_grid_array.
  apply map_ext. intros x3.
  rewrite <- trapz_over_div. apply trapz_over_ext. intros x2. apply trapz_over_div.
Qed.

Lemma marginal_2_normalised :
  marginal_2 c n P =
  map (fun x2 => trapz_over (fun x3 => trapz_over (fun x1 => density c x1 x2 x3) g1) g3 / Z)
      g2.
Proof.
  destruct normalised_P as [_ ->]. unfold g1, g2, g3.
  rewrite marginal_2_grid_array.
  apply map_ext. intros x2.
  rewrite <- trapz_over_div. apply trapz_over_ext. intros x3. apply trapz_over_div.
Qed.

Lemma marginal_3_area : trapezoid1 (marginal_3 c n P) g3 = 1.
Proof.
  rewrite marginal_3_normalised.
  change (trapz_over (fun x3 =>
            trapz_over (fun x2 => trapz_over (fun x1 => density c x1 x2 x3) g1) g2 / Z) g3 = 1).
  pose proof nested_is_Z as N. destruct normalised_P as [Hz _].
  unfold g1, g2, g3 in *. rewrite trapz_over_div, N. now field.
Qed.

Lemma marginal_2_area : trapezoid1 (marginal_2 c n P) g2 = 1.
Proof.
  rewrite marginal_2_normalised.
  change (trapz_over (fun x2 =>
            trapz_over (fun x3 => trapz_over (fun x1 => density c x1 x2 x3) g1) g3 / Z) g2 = 1).
  pose proof nested_is_Z as N. destruct normalised_P as [Hz _].
  unfold g1, g2, g3 in *. rewrite trapz_over_div.
  rewrite (trapz_over_swap
             (fun x2 x3 => trapz_over (fun x1 => density c x1 x2 x3)
                                      (linspace (a_1 c) (b_1 c) n))).
  rewrite N. now field.
Qed.

(** The second plot integrates [x3] against the [x2] grid: its entries
    are the proper marginal over [x1] scaled by the ratio of the two
    widths. *)
Lemma marginal_1_entry (j : nat) :
  (j < n)%nat ->
  (b_3 c - a_3 c) * nth j (marginal_1 c n P) 0 =
  (b_2 c - a_2 c) *
  (trapz_over (fun x2 =>
     trapz_over (fun x3 => density c (linspace_pt (a_1 c) (b_1 c) n j) x2 x3) g3) g2 / Z).
Proof.
  intros Hj. destruct normalised_P as [Hz ->]. unfold g1, g2, g3.
  rewrite marginal_1_grid_array.
  rewrite (linspace_tab (a_1 c)), map_tab, nth_tab by assumption.
  set (x1 := linspace_pt (a_1 c) (b_1 c) n j).
  pose proof (INR_pred_pos n Hn) as Hp.
  set (U := fun x2 => unit_trapz n (fun a =>
              density c x1 x2 (linspace_pt (a_3 c) (b_3 c) n a) / Z)).
  assert (E1 : forall x2,
             trapezoid1 (map (fun x3 => density c x1 x2 x3 / Z)
                             (linspace (a_3 c) (b_3 c) n))
                        (linspace (a_2 c) (b_2 c) n) =
             (b_2 c - a_2 c) / INR (n - 1) * U x2).
  { intros x2. rewrite (linspace_tab (a_3 c)), map_tab. apply trapezoid1_uniform. }
  assert (E2 : forall x2,
             trapz_over (fun x3 => density c x1 x2 x3) (linspace (a_3 c) (b_3 c) n) / Z =
             (b_3 c - a_3 c) / INR (n - 1) * U x2).
  { intros x2. rewrite <- trapz_over_div. apply trapz_over_linspace. }
  change (trapezoid1 (map (fun x2 => trapezoid1 _ _) _) _)
    with (trapz_over (fun x2 =>
            trapezoid1 (map (fun x3 => density c x1 x2 x3 / Z) (linspace (a_3 c) (b_3 c) n))
                       (linspace (a_2 c) (b_2 c) n))
            (linspace (a_2 c) (b_2 c) n)).
  rewrite (trapz_over_ext _ _ _ E1), trapz_over_scal.
  rewrite <- trapz_over_div, (trapz_over_ext _ _ _ E2), trapz_over_scal.
  field. lra.
Qed.

Lemma marginal_1_area :
  (b_3 c - a_3 c) * trapezoid1 (marginal_1 c n P) g1 = b_2 c - a_2 c.
Proof.
  pose proof nested_is_Z as N.
  destruct normalised_P as [Hz HPe]. rewrite HPe. unfold g1, g2, g3 in *.
  rewrite marginal_1_grid_array.
  pose proof (INR_pred_pos n Hn) as Hp.
  set (D := fun x1 x2 x3 => density c x1 x2 x3 / Z).
  assert (E1 : forall x1 x2,
             trapezoid1 (map (fun x3 => D x1 x2 x3) (linspace (a_3 c) (b_3 c) n))
                        (linspace (a_2 c) (b_2 c) n) =
             (b_2 c - a_2 c) / INR (n - 1) *
             unit_trapz n (fun a => D x1 x2 (linspace_pt (a_3 c) (b_3 c) n a))).
  { intros x1 x2. rewrite (linspace_tab (a_3 c)), map_tab. apply trapezoid1_uniform. }
  assert (E2 : forall x1 x2,
             (b_3 c - a_3 c) *
             trapezoid1 (map (fun x3 => D x1 x2 x3) (linspace (a_3 c) (b_3 c) n))
                        (linspace (a_2 c) (b_2 c) n) =
             (b_2 c - a_2 c) * trapz_over (fun x3 => D x1 x2 x3) (linspace (a_3 c) (b_3 c) n)).
  { intros x1 x2. rewrite E1, trapz_over_linspace. field. lra. }
  change (trapezoid1 (map (fun x1 => trapezoid1 _ _) _) _)
    with (trapz_over (fun x1 =>
            trapz_over (fun x2 =>
              trapezoid1 (map (fun x3 => D x1 x2 x3) (linspace (a_3 c) (b_3 c) n))
                         (linspace (a_2 c) (b_2 c) n))
              (linspace (a_2 c) (b_2 c) n))
            (linspace (a_1 c) (b_1 c) n)).
  rewrite <- trapz_over_scal.
  rewrite (trapz_over_ext _
             (fun x1 => (b_2 c - a_2 c) *
                trapz_over (fun x2 => trapz_over (fun x3 => D x1 x2 x3)
                                        (linspace (a_3 c) (b_3 c) n))
                           (linspace (a_2 c) (b_2 c) n))).
  2:{ intros x1. rewrite <- !trapz_over_scal. apply trapz_over_ext. intros x2. apply E2. }
  rewrite trapz_over_scal.
  (* reorder the three integrations to the order of the normalising constant *)
  rewrite (trapz_over_swap
             (fun x1 x2 => trapz_over (fun x3 => D x1 x2 x3) (linspace (a_3 c) (b_3 c) n))).
  rewrite (trapz_over_ext
             (fun x2 => trapz_over (fun x1 => trapz_over (fun x3 => D x1 x2 x3)
                                     (linspace (a_3 c) (b_3 c) n))
                                   (linspace (a_1 c) (b_1 c) n))
             (fun x2 => trapz_over (fun x3 => trapz_over (fun x1 => D x1 x2 x3)
                                     (linspace (a_1 c) (b_1 c) n))
                                   (linspace (a_3 c) (b_3 c) n)))
    by (intros x2; apply (trapz_over_swap (fun x1 x3 => D x1 x2 x3))).
  rewrite (trapz_over_swap
             (fun x2 x3 => trapz_over (fun x1 => D x1 x2 x3) (linspace (a_1 c) (b_1 c) n))).
  unfold D.
  rewrite (trapz_over_ext _
             (fun x3 => trapz_over (fun x2 =>
                trapz_over (fun x1 => density c x1 x2 x3) (linspace (a_1 c) (b_1 c) n))
                (linspace (a_2 c) (b_2 c) n) / Z)).
  2:{ intros x3. rewrite <- trapz_over_div. apply trapz_over_ext. intros x2.
      apply trapz_over_div. }
  rewrite trapz_over_div, N. now field.
Qed.

End Areas.

(** ** The plots of the trapezoidal method *)

Lemma notebook_normalised : exists P, P_normalised_n notebook grid_pts = Ok P.
Proof.
  apply P_normalised_n_ok; [apply grid_pts_ge_2|].
  destruct (P_E_trapz_n_product notebook grid_pts grid_pts_ge_2) as (S & HS & E).
  rewrite E. cbn [a_1 a_2 a_3 b_1 b_2 b_3 notebook]. nra.
Qed.

Lemma wide_box_normalised : exists P, P_normalised_n wide_box grid_pts = Ok P.
Proof.
  apply P_normalised_n_ok; [apply grid_pts_ge_2|].
  destruct (P_E_trapz_n_product wide_box grid_pts grid_pts_ge_2) as (S & HS & E).
  rewrite E. cbn [a_1 a_2 a_3 b_1 b_2 b_3 wide_box]. nra.
Qed.


(** First plot, on a grid of any size [n >= 2]: the array drawn over [X2_, X3_] has at row [k], column
    [i] the density integrated over the [x1] grid at the point
    [(X2_[k][i], X3_[k][i])], divided by the normalising constant. *)
Theorem marginal_23_plot (c : Config) (n : nat) (P : list R) (i k : nat) :
  (2 <= n)%nat -> P_normalised_n c n = Ok P -> (i < n)%nat -> (k < n)%nat ->
  let x2 := nth i (nth k (X2_c c n) []) 0 in
  let x3 := nth i (nth k (X3_c c n) []) 0 in
  x2 = linspace_pt (a_2 c) (b_2 c) n i /\
  x3 = linspace_pt (a_3 c) (b_3 c) n k /\
  nth i (nth k (marginal_23 c n P) []) 0 =
  trapz_over (fun x1 => density c x1 x2 x3) (linspace (a_1 c) (b_1 c) n)
  / P_E_trapz_n c n.
Proof.
  intros Hn HP Hi Hk x2 x3.
  assert (E2 : x2 = linspace_pt (a_2 c) (b_2 c) n i).
  { unfold x2, X2_c, meshgrid_c, meshgrid2. cbn [fst].
    rewrite (linspace_tab (a_3 c)), map_tab, nth_tab by assumption.
    rewrite linspace_tab. now rewrite nth_tab. }
  assert (E3 : x3 = linspace_pt (a_3 c) (b_3 c) n k).
  { unfold x3, X3_c, meshgrid_c, meshgrid2. cbn [snd].
    rewrite (linspace_tab (a_3 c)), map_tab, nth_tab by assumption.
    rewrite linspace_tab, map_tab. now rewrite nth_tab. }
  split; [exact E2|]. split; [exact E3|].
  rewrite (marginal_23_normalised c n Hn P HP), E2, E3.
  rewrite (linspace_tab (a_3 c)), map_tab, nth_tab by assumption.
  rewrite (linspace_tab (a_2 c)), map_tab, nth_tab by assumption.
  reflexivity.
Qed.

Lemma marginal_23_plot_witness :
  exists P, P_normalised_n notebook grid_pts = Ok P /\
    nth 1 (nth 2 (X2_c notebook grid_pts) []) 0 = linspace_pt 0 3 grid_pts 1.
Proof.
  destruct notebook_normalised as [P HP]. exists P. split; [exact HP|].
  assert (H1 : (1 < grid_pts)%nat) by (unfold grid_pts; lia).
  assert (H2 : (2 < grid_pts)%nat) by (unfold grid_pts; lia).
  exact (proj1 (marginal_23_plot notebook grid_pts P 1 2 grid_pts_ge_2 HP H1 H2)).
Defined.

(** Fourth plot, on a grid of any size [n >= 2]: the curve drawn over the [x3] grid is, at [x3[k]], the
    density integrated over [x1] and then [x2], each against its own
    grid, divided by the normalising constant; the rule over the [x3]
    grid gives it the area 1. *)
Theorem marginal_3_plot (c : Config) (n : nat) (P : list R) :
  (2 <= n)%nat -> P_normalised_n c n = Ok P ->
  (forall k, (k < n)%nat ->
     nth k (marginal_3 c n P) 0 =
     trapz_over (fun x2 =>
        trapz_over (fun x1 => density c x1 x2 (linspace_pt (a_3 c) (b_3 c) n k))
                   (linspace (a_1 c) (b_1 c) n))
        (linspace (a_2 c) (b_2 c) n)
     / P_E_trapz_n c n)
  /\ trapezoid1 (marginal_3 c n P) (linspace (a_3 c) (b_3 c) n) = 1.
Proof.
  intros Hn HP. split.
  - intros k Hk. rewrite (marginal_3_normalised c n Hn P HP).
    rewrite (linspace_tab (a_3 c)), map_tab, nth_tab by assumption. reflexivity.
  - exact (marginal_3_area c n Hn P HP).
Qed.

Lemma marginal_3_plot_witness :
  exists P, P_normalised_n notebook grid_pts = Ok P /\
    trapezoid1 (marginal_3 notebook grid_pts P) (linspace 0 3 grid_pts) = 1.
Proof.
  destruct notebook_normalised as [P HP]. exists P. split; [exact HP|].
  exact (proj2 (marginal_3_plot notebook grid_pts P grid_pts_ge_2 HP)).
Defined.

(** Third plot, on a grid of any size [n >= 2]: the curve drawn over the [x2] grid is, at [x2[i]], the
    density integrated over [x1] and then [x3], each against its own
    grid, divided by the normalising constant; the rule over the [x2]
    grid gives it the area 1. *)
Theorem marginal_2_plot (c : Config) (n : nat) (P : list R) :
  (2 <= n)%nat -> P_normalised_n c n = Ok P ->
  (forall i, (i < n)%nat ->
     nth i (marginal_2 c n P) 0 =
     trapz_over (fun x3 =>
        trapz_over (fun x1 => density c x1 (linspace_pt (a_2 c) (b_2 c) n i) x3)
                   (linspace (a_1 c) (b_1 c) n))
        (linspace (a_3 c) (b_3 c) n)
     / P_E_trapz_n c n)
  /\ trapezoid1 (marginal_2 c n P) (linspace (a_2 c) (b_2 c) n) = 1.
Proof.
  intros Hn HP. split.
  - intros i Hi. rewrite (marginal_2_normalised c n Hn P HP).
    rewrite (linspace_tab (a_2 c)), map_tab, nth_tab by assumption. reflexivity.
  - exact (marginal_2_area c n Hn P HP).
Qed.

Lemma marginal_2_plot_witness :
  exists P, P_normalised_n notebook grid_pts = Ok P /\
    trapezoid1 (marginal_2 notebook grid_pts P) (linspace 0 3 grid_pts) = 1.
Proof.
  destruct notebook_normalised as [P HP]. exists P. split; [exact HP|].
  exact (proj2 (marginal_2_plot notebook grid_pts P grid_pts_ge_2 HP)).
Defined.

(** Second plot, on a grid of any size [n >= 2]: the curve drawn over the [x1] grid integrates the [x3]
    axis against the spacing of the [x2] grid.  Its value at [x1[j]] is
    the marginal over [x2] and [x3] scaled by the ratio of the two
    widths, and so is its area: both are the proper ones exactly when the
    [x2] and [x3] widths agree, as they do in the notebook. *)
Theorem marginal_1_plot (c : Config) (n : nat) (P : list R) :
  (2 <= n)%nat -> P_normalised_n c n = Ok P ->
  (forall j, (j < n)%nat ->
     (b_3 c - a_3 c) * nth j (marginal_1 c n P) 0 =
     (b_2 c - a_2 c) *
     (trapz_over (fun x2 =>
         trapz_over (fun x3 => density c (linspace_pt (a_1 c) (b_1 c) n j) x2 x3)
                    (linspace (a_3 c) (b_3 c) n))
         (linspace (a_2 c) (b_2 c) n)
      / P_E_trapz_n c n))
  /\ (b_3 c - a_3 c) *
     trapezoid1 (marginal_1 c n P) (linspace (a_1 c) (b_1 c) n)
     = b_2 c - a_2 c.
Proof.
  intros Hn HP. split.
  - intros j Hj. exact (marginal_1_entry c n Hn P HP j Hj).
  - exact (marginal_1_area c n Hn P HP).
Qed.

Lemma marginal_1_plot_witness :
  (exists P, P_normalised_n notebook grid_pts = Ok P /\
     trapezoid1 (marginal_1 notebook grid_pts P) (linspace 0 3 grid_pts) = 1)
  /\ (exists P, P_normalised_n wide_box grid_pts = Ok P /\
        trapezoid1 (marginal_1 wide_box grid_pts P) (linspace 0 3 grid_pts) = / 2).
Proof.
  split.
  - destruct notebook_normalised as [P HP]. exists P. split; [exact HP|].
    pose proof (proj2 (marginal_1_plot notebook grid_pts P grid_pts_ge_2 HP)) as H.
    cbn [a_1 a_2 a_3 b_1 b_2 b_3 notebook] in H. lra.
  - destruct wide_box_normalised as [P HP]. exists P. split; [exact HP|].
    pose proof (proj2 (marginal_1_plot wide_box grid_pts P grid_pts_ge_2 HP)) as H.
    cbn [a_1 a_2 a_3 b_1 b_2 b_3 wide_box] in H. lra.
Defined.

Lemma linspace_in_range (a b x : R) (n : nat) :
  a <= b -> In x (linspace a b n) -> a <= x <= b.
Proof.
  intros Hab Hx. unfold linspace in Hx. apply in_map_iff in Hx.
  destruct Hx as (k & <- & Hk). apply in_seq in Hk.
  destruct k as [|k].
  - cbn [INR]. lra.
  - assert (Hm : 0 < INR (n - 1)) by (apply lt_0_INR; lia).
    assert (Hk1 : 0 <= INR (S k)) by apply pos_INR.
    assert (Hk2 : INR (S k) <= INR (n - 1)) by (apply le_INR; lia).
    set (t := INR (S k) / INR (n - 1)).
    assert (Ht : 0 <= t <= 1).
    { unfold t. split.
      - apply Rmult_le_pos; [exact Hk1|]. left. now apply Rinv_0_lt_compat.
      - apply Rmult_le_reg_r with (INR (n - 1)); [exact Hm|].
        unfold Rdiv. rewrite Rmult_assoc, Rinv_l by lra. lra. }
    replace (INR (S k) * ((b - a) / INR (n - 1))) with (t * (b - a))
      by (unfold t; field; lra).
    nra.
Qed.

(** Every point the loop of the trapezoidal cell visits lies in the closed
    box of the configuration, for a box with [a_i <= b_i] and a grid of
    any size [n]; there are [n^3] of them. *)
Theorem grid_points_in_box (c : Config) (n : nat) (x1 x2 x3 : R) :
  a_1 c <= b_1 c -> a_2 c <= b_2 c -> a_3 c <= b_3 c ->
  In (x1, x2, x3) (grid_points c n) ->
  in_box c [x1; x2; x3] /\
  length (grid_points c n) = (n * (n * n))%nat.
Proof.
  intros H1 H2 H3 Hin. split.
  - unfold grid_points, X1_g, X2_g, X3_g, meshgrid_g in Hin.
    rewrite zip3_meshgrid3 in Hin. unfold grid_array in Hin.
    apply in_concat in Hin. destruct Hin as (row & Hrow & Hin).
    apply in_concat in Hrow. destruct Hrow as (slab & Hslab & Hrow).
    apply in_map_iff in Hslab. destruct Hslab as (v2 & <- & Hv2).
    apply in_map_iff in Hrow. destruct Hrow as (v1 & <- & Hv1).
    apply in_map_iff in Hin. destruct Hin as (v3 & E & Hv3).
    injection E as -> -> ->.
    cbn [in_box].
    split; [exact (linspace_in_range _ _ _ n H1 Hv1)|].
    split; [exact (linspace_in_range _ _ _ n H2 Hv2)|].
    exact (linspace_in_range _ _ _ n H3 Hv3).
  - unfold grid_points, X1_g, X2_g, X3_g, meshgrid_g.
    rewrite zip3_meshgrid3, length_grid_array. now rewrite !length_linspace.
Qed.

Lemma grid_points_in_box_witness :
  in_box notebook [linspace_pt 0 3 grid_pts 0; linspace_pt 0 3 grid_pts 0;
                   linspace_pt 0 3 grid_pts 0].
Proof.
  assert (H0 : (0 < grid_pts)%nat) by (unfold grid_pts; lia).
  assert (Hb : forall a b : R, a = 0 -> b = 3 -> a <= b) by (intros; lra).
  exact (proj1 (grid_points_in_box notebook grid_pts _ _ _
                  (Hb _ _ eq_refl eq_refl) (Hb _ _ eq_refl eq_refl)
                  (Hb _ _ eq_refl eq_refl)
                  (nth_error_In _ 0 (grid_points_at notebook grid_pts 0 0 0 H0 H0 H0)))).
Defined.

(** ** The analytical cell: closed form, ridge and layout *)

Lemma ln_quot (a b : R) : 0 < a -> 0 < b -> ln (a / b) = ln a - ln b.
Proof.
  intros Ha Hb. unfold Rdiv.
  rewrite ln_mult, ln_Rinv; [lra|exact Hb|exact Ha|now apply Rinv_0_lt_compat].
Qed.

Lemma analytical_gaussian (c : Config) (x2 x3 : R) :
  sig c <> 0 -> sig_e c <> 0 ->
  analytical c x2 x3 =
  - 0.5 * ln (2 * PI * (sig c ^ 2 + sig_e c ^ 2))
  - (x2 + x3 - y c) ^ 2 / (2 * (sig c ^ 2 + sig_e c ^ 2)).
Proof.
  intros Hs He. rewrite analytical_spec_logC by assumption.
  unfold spec_logC. cbv zeta.
  set (v := sig c ^ 2). set (e := sig_e c ^ 2).
  assert (Hv : 0 < v) by now apply sq_pos.
  assert (Hw : 0 < e) by now apply sq_pos.
  pose proof PI_RGT_0 as Hpi.
  assert (HA : 0 < 2 * PI * v) by (apply Rmult_lt_0_compat; lra).
  assert (HB : 0 < 2 * PI * e) by (apply Rmult_lt_0_compat; lra).
  assert (HC : 0 < 2 * PI * (v + e)) by (apply Rmult_lt_0_compat; lra).
  assert (EL : ln (PI / (1 / (2 * v) + 1 / (2 * e))) =
               ln (2 * PI * v) + ln (2 * PI * e) - ln (2 * PI * (v + e))).
  { replace (PI / (1 / (2 * v) + 1 / (2 * e)))
      with ((2 * PI * v) * (2 * PI * e) / (2 * PI * (v + e))) by (field; repeat split; lra).
    rewrite ln_quot; [|now apply Rmult_lt_0_compat|exact HC].
    now rewrite ln_mult. }
  rewrite EL.
  assert (ER : - (x2 + x3) ^ 2 / (2 * e) - y c ^ 2 / (2 * v)
               + (y c / v + (x2 + x3) / e) ^ 2 / (4 * (1 / (2 * v) + 1 / (2 * e)))
               = - (x2 + x3 - y c) ^ 2 / (2 * (v + e))) by (field; repeat split; lra).
  lra.
Qed.

(** The value of the analytical cell is the logarithm of a normal density
    in [x2 + x3], with mean [y] and variance [sig^2 + sig_e^2]: it depends
    on the point only through [x2 + x3] and is largest exactly on the line
    [x2 + x3 = y]. *)
Theorem analytical_normal_density (c : Config) (x2 x3 : R) :
  sig c <> 0 -> sig_e c <> 0 ->
  analytical c x2 x3 =
    - 0.5 * ln (2 * PI * (sig c ^ 2 + sig_e c ^ 2))
    - (x2 + x3 - y c) ^ 2 / (2 * (sig c ^ 2 + sig_e c ^ 2))
  /\ (forall x2' x3', x2' + x3' = x2 + x3 -> analytical c x2' x3' = analytical c x2 x3)
  /\ (forall x2' x3', x2' + x3' = y c ->
        analytical c x2 x3 <= analytical c x2' x3' /\
        (analytical c x2 x3 = analytical c x2' x3' <-> x2 + x3 = y c)).
Proof.
  intros Hs He.
  pose proof (sq_pos _ Hs) as Hv. pose proof (sq_pos _ He) as Hw.
  split; [now apply analytical_gaussian|]. split.
  - intros x2' x3' E. rewrite !analytical_gaussian by assumption. now rewrite E.
  - intros x2' x3' E. rewrite !analytical_gaussian by assumption. rewrite E.
    replace ((y c - y c) ^ 2) with 0 by ring.
    set (d := 2 * (sig c ^ 2 + sig_e c ^ 2)).
    assert (Hd : 0 < d) by (unfold d; lra).
    assert (Hq : 0 <= (x2 + x3 - y c) ^ 2 / d).
    { apply Rmult_le_pos; [apply pow2_ge_0|]. left. now apply Rinv_0_lt_compat. }
    split; [unfold Rdiv at 2; rewrite Rmult_0_l; lra|].
    unfold Rdiv at 2. rewrite Rmult_0_l. split.
    + intros H.
      assert (H0 : (x2 + x3 - y c) ^ 2 / d = 0) by lra.
      apply Rmult_integral in H0. destruct H0 as [H0|H0].
      * assert (x2 + x3 - y c = 0) by nra. lra.
      * pose proof (Rinv_0_lt_compat _ Hd). lra.
    + intros H. rewrite H. replace ((y c - y c) ^ 2) with 0 by ring.
      unfold Rdiv. rewrite Rmult_0_l. lra.
Qed.

Lemma analytical_normal_density_witness :
  analytical notebook 0.75 0.75 =
  - 0.5 * ln (2 * PI * (0.1 ^ 2 + 0.0001 ^ 2))
  - (0.75 + 0.75 - 1.5) ^ 2 / (2 * (0.1 ^ 2 + 0.0001 ^ 2)).
Proof.
  apply (proj1 (analytical_normal_density notebook 0.75 0.75
                  notebook_sig_ne notebook_sig_e_ne)).
Defined.

(** The red line of the plots: every one of its points has
    [x2 + x3 = y], so the analytical value is largest there. *)
Theorem ridge_line_maximises (c : Config) (m : nat) (x2 x3 : R) :
  sig c <> 0 -> sig_e c <> 0 ->
  In (x2, x3) (ridge_line c m) ->
  x2 + x3 = y c /\
  length (ridge_line c m) = m /\
  forall u2 u3, analytical c u2 u3 <= analytical c x2 x3.
Proof.
  intros Hs He Hin.
  assert (E : x2 + x3 = y c).
  { unfold ridge_line in Hin.
    revert Hin. generalize (linspace (a_2 c) (y c) m) as l.
    induction l as [|t l IH]; cbn [map combine In]; [tauto|].
    intros [H|H]; [|now apply IH]. injection H as <- <-. lra. }
  split; [exact E|]. split.
  - unfold ridge_line. rewrite length_combine, length_map, length_linspace.
    apply Nat.min_id.
  - intros u2 u3. rewrite !analytical_gaussian by assumption. rewrite E.
    pose proof (sq_pos _ Hs) as Hv. pose proof (sq_pos _ He) as Hw.
    replace ((y c - y c) ^ 2) with 0 by ring.
    set (d := 2 * (sig c ^ 2 + sig_e c ^ 2)).
    assert (Hd : 0 < d) by (unfold d; lra).
    assert (Hq : 0 <= (u2 + u3 - y c) ^ 2 / d).
    { apply Rmult_le_pos; [apply pow2_ge_0|]. left. now apply Rinv_0_lt_compat. }
    unfold Rdiv at 2. rewrite Rmult_0_l. lra.
Qed.

Lemma ridge_line_maximises_witness :
  a_2 notebook + (-1.0 * a_2 notebook + y notebook) = y notebook.
Proof.
  refine (proj1 (ridge_line_maximises notebook 2 (a_2 notebook)
                   (-1.0 * a_2 notebook + y notebook)
                   notebook_sig_ne notebook_sig_e_ne _)).
  unfold ridge_line, linspace. cbn [seq map combine In INR].
  left. f_equal; cbn [a_2 y notebook]; lra.
Defined.

Lemma analytical_loop (c : Config) (l : list (R * R)) (acc : list R) :
  fold_left (fun acc p => let '(j, k) := p in acc ++ [analytical c j k]) l acc =
  acc ++ map (fun p => let '(j, k) := p in analytical c j k) l.
Proof.
  revert acc. induction l as [|[j k] l IH]; intros acc; cbn [fold_left map].
  - now rewrite app_nil_r.
  - rewrite IH, <- app_assoc. reflexivity.
Qed.

Lemma analytical_P_map (c : Config) (n : nat) :
  analytical_P_ c n =
  map (fun p => let '(j, k) := p in analytical c j k) (analytical_points c n).
Proof. unfold analytical_P_. now rewrite analytical_loop. Qed.

Lemma analytical_points_rows (c : Config) (n : nat) :
  analytical_points c n =
  concat (map (fun x3 => map (fun x2 => (x2, x3)) (linspace (a_2 c) (b_2 c) n))
              (linspace (a_3 c) (b_3 c) n)).
Proof.
  unfold analytical_points, meshgrid_a, meshgrid2, flatten2. cbn [fst snd].
  rewrite combine_concat_map by (intros; now rewrite length_map).
  f_equal. apply map_ext. intros x3.
  induction (linspace (a_2 c) (b_2 c) n) as [|x2 l IH]; [reflexivity|].
  cbn [map combine]. now rewrite IH.
Qed.

(** The array handed to the contour plot of the analytical cell has at
    row [k], column [i] the value [exp] of the analytical log-density at
    the point [(X2[k][i], X3[k][i])]: the reshape puts every value back at
    the mesh point it was computed for. *)
Theorem analytical_field_layout (c : Config) (n i k : nat) :
  (i < n)%nat -> (k < n)%nat ->
  let x2 := nth i (nth k (fst (meshgrid_a c n)) []) 0 in
  let x3 := nth i (nth k (snd (meshgrid_a c n)) []) 0 in
  x2 = linspace_pt (a_2 c) (b_2 c) n i /\
  x3 = linspace_pt (a_3 c) (b_3 c) n k /\
  nth i (nth k (analytical_field c n) []) 0 = exp (analytical c x2 x3).
Proof.
  intros Hi Hk x2 x3.
  assert (E2 : x2 = linspace_pt (a_2 c) (b_2 c) n i).
  { unfold x2, meshgrid_a, meshgrid2. cbn [fst].
    rewrite (linspace_tab (a_3 c)), map_tab, nth_tab by assumption.
    rewrite linspace_tab. now rewrite nth_tab. }
  assert (E3 : x3 = linspace_pt (a_3 c) (b_3 c) n k).
  { unfold x3, meshgrid_a, meshgrid2. cbn [snd].
    rewrite (linspace_tab (a_3 c)), map_tab, nth_tab by assumption.
    rewrite linspace_tab, map_tab. now rewrite nth_tab. }
  split; [exact E2|]. split; [exact E3|]. rewrite E2, E3.
  unfold analytical_field, reshape2, shape2.
  assert (Hshape : length (hd [] (fst (meshgrid_a c n))) = n).
  { unfold meshgrid_a, meshgrid2. cbn [fst].
    rewrite (linspace_tab (a_3 c)), map_tab.
    apply hd_tab_length; [intros; apply length_linspace|lia]. }
  assert (Hrows : length (fst (meshgrid_a c n)) = n).
  { unfold meshgrid_a, meshgrid2. cbn [fst]. now rewrite length_map, length_linspace. }
  rewrite Hshape, Hrows, analytical_P_map, analytical_points_rows.
  rewrite concat_map, map_map.
  rewrite <- (length_linspace (a_3 c) (b_3 c) n) at 1.
  rewrite <- (length_map (fun x3 => map (fun p => let '(j, k0) := p in analytical c j k0)
                                       (map (fun x2 => (x2, x3)) (linspace (a_2 c) (b_2 c) n)))
                         (linspace (a_3 c) (b_3 c) n)).
  rewrite chunks_concat.
  - rewrite map_map, (linspace_tab (a_3 c)), map_tab, nth_tab by assumption.
    rewrite !map_map, linspace_tab, map_tab, nth_tab by assumption. reflexivity.
  - apply Forall_map, Forall_forall. intros x _.
    now rewrite !length_map, length_linspace.
Qed.

Lemma analytical_field_layout_witness :
  nth 1 (nth 2 (fst (meshgrid_a notebook grid_pts)) []) 0 = linspace_pt 0 3 grid_pts 1.
Proof.
  assert (H1 : (1 < grid_pts)%nat) by (unfold grid_pts; lia).
  assert (H2 : (2 < grid_pts)%nat) by (unfold grid_pts; lia).
  exact (proj1 (analytical_field_layout notebook grid_pts 1 2 H1 H2)).
Defined.

(** ** The sampling loop: acceptance, steps and exceptions *)

Lemma mcmc_step_eq (c : Config) (s : chain) (p_x_prev p_x : R) :
  log_prob c (xi s) = Ok p_x_prev ->
  log_prob c (draw_sel_x s) = Ok p_x ->
  mcmc_step c s =
  Ok (if accept (draw_u s) p_x p_x_prev
      then {| xi := draw_sel_x s;
              samp_res := samp_res s ++ [elems (draw_sel_x s)];
              rng := draw_rng s |}
      else {| xi := xi s;
              samp_res := samp_res s ++ [elems (xi s)];
              rng := draw_rng s |}).
Proof.
  intros Hprev Hcand. revert Hcand.
  unfold mcmc_step, draw_sel_x, draw_u, draw_rng.
  destruct (uniform 0 1 (rng s)) as [u g1]. cbn [fst snd].
  destruct (propose (elems (xi s)) g1) as [cand g2]. cbn [fst snd].
  intros Hcand. rewrite Hprev, Hcand. cbn [bind elems].
  destruct (accept u p_x p_x_prev); reflexivity.
Qed.

Lemma draw_u_range (s : chain) : valid_rng (rng s) -> 0 <= draw_u s < 1.
Proof.
  intros Hg. unfold draw_u. rewrite uniform_eq. cbn [fst].
  pose proof (valid_rng_range _ Hg (pos (rng s))). lra.
Qed.

Lemma accept_not_downhill (u p_x p_x_prev : R) :
  0 <= u < 1 -> p_x_prev <= p_x -> accept u p_x p_x_prev = true.
Proof.
  intros [H0 H1] Hp. destruct (Req_dec_T u 0) as [-> |Hu].
  - apply accept_zero.
  - apply accept_uphill; [lra|exact Hp].
Qed.

(** A proposal whose log density is not below the current one is accepted
    whatever [u] is drawn: the chain moves to it and records it. *)
Theorem uphill_always_accepted (c : Config) (s : chain) (p_x_prev p_x : R) :
  valid_rng (rng s) ->
  log_prob c (xi s) = Ok p_x_prev ->
  log_prob c (draw_sel_x s) = Ok p_x ->
  p_x_prev <= p_x ->
  exists s', mcmc_step c s = Ok s' /\ xi s' = draw_sel_x s /\
             samp_res s' = samp_res s ++ [elems (draw_sel_x s)].
Proof.
  intros Hg Hprev Hcand Hle.
  rewrite (mcmc_step_eq c s _ _ Hprev Hcand).
  rewrite accept_not_downhill; [|now apply draw_u_range|exact Hle].
  eexists. repeat split.
Qed.

Lemma sentinel_is_lowest (x1 x2 x3 : R) : sentinel <= log_prob_val notebook x1 x2 x3.
Proof.
  unfold log_prob_val. destruct (in_support [x1; x2; x3]) eqn:E; [|lra].
  pose proof (log_density_lower _ _ _ E). unfold sentinel. lra.
Qed.

(** From a state outside the support every proposal is accepted, inside
    the support or not: outside the box the chain is a free random walk. *)
Theorem outside_state_always_moves (s : chain) :
  valid_rng (rng s) -> vec3 (xi s) -> in_support (elems (xi s)) = false ->
  exists s', mcmc_step notebook s = Ok s' /\ xi s' = draw_sel_x s.
Proof.
  intros Hg (x1 & x2 & x3 & Hx) Hout.
  rewrite (mcmc_step_values notebook s x1 x2 x3 _ _ _
             notebook_sig_ne notebook_sig_e_ne notebook_moderate_y
             Hx eq_refl eq_refl eq_refl).
  rewrite accept_not_downhill.
  - eexists. split; [reflexivity|]. cbn [xi].
    unfold draw_sel_x. rewrite uniform_eq, Hx, propose3. reflexivity.
  - now apply draw_u_range.
  - replace (log_prob_val notebook x1 x2 x3) with sentinel.
    + apply sentinel_is_lowest.
    + unfold log_prob_val. rewrite <- Hx, Hout. reflexivity.
Qed.

Lemma valid_half_rng : valid_rng half_rng.
Proof. intros n. cbn [samples half_rng]. dyadic. Qed.

Lemma outside_state_always_moves_witness :
  exists s', mcmc_step notebook outside_state = Ok s' /\
             xi s' = draw_sel_x outside_state.
Proof.
  apply (outside_state_always_moves outside_state).
  - exact valid_half_rng.
  - unfold vec3, outside_state. cbn [xi elems]. eauto.
  - unfold outside_state. cbn [xi elems]. apply in_support3_false. lra.
Defined.

Lemma uphill_always_accepted_witness :
  exists s', mcmc_step notebook outside_state = Ok s' /\
             xi s' = draw_sel_x outside_state /\
             samp_res s' = samp_res outside_state ++ [elems (draw_sel_x outside_state)].
Proof.
  refine (uphill_always_accepted notebook outside_state sentinel _ valid_half_rng
            _ (log_prob_three notebook NdArray _ _ _
                 notebook_sig_ne notebook_sig_e_ne notebook_moderate_y)
            (sentinel_is_lowest _ _ _)).
  apply log_prob_outside. unfold outside_state. cbn [xi elems].
  apply in_support3_false. lra.
Defined.

Lemma close_refl3 (x1 x2 x3 : R) : close [x1; x2; x3] [x1; x2; x3].
Proof.
  unfold close.
  apply Forall2_cons; [lra|apply Forall2_cons; [lra|apply Forall2_cons; [lra|apply Forall2_nil]]].
Qed.

Lemma last_cons_default (A : Type) (a : A) (l : list A) (d d' : A) :
  last (a :: l) d = last (a :: l) d'.
Proof.
  revert a. induction l as [|b l IH]; intros a; [reflexivity|].
  change (last (b :: l) d = last (b :: l) d'). apply IH.
Qed.

Lemma walk_app (p : list R) (l : list (list R)) (x : list R) :
  walk p l -> close (last l p) x -> walk p (l ++ [x]).
Proof.
  revert p. induction l as [|z l IH]; intros p Hw Hc; cbn [app walk].
  - split; [exact Hc|exact I].
  - destruct Hw as [Hz Hw]. split; [exact Hz|].
    apply IH; [exact Hw|].
    destruct l as [|z' l]; [exact Hc|].
    rewrite (last_cons_default _ z' l z p). exact Hc.
Qed.

Lemma draw_sel_x_close (s : chain) (x1 x2 x3 : R) :
  valid_rng (rng s) -> elems (xi s) = [x1; x2; x3] ->
  close [x1; x2; x3] (elems (draw_sel_x s)).
Proof.
  intros Hg Hx. pose proof (valid_rng_range _ Hg) as Hr.
  unfold draw_sel_x. rewrite uniform_eq, Hx, propose3. cbn [fst snd elems samples pos].
  pose proof (Hr (S (pos (rng s)))). pose proof (Hr (S (S (pos (rng s))))).
  pose proof (Hr (S (S (S (pos (rng s)))))).
  unfold close.
  apply Forall2_cons; [nra|apply Forall2_cons; [nra|apply Forall2_cons; [nra|apply Forall2_nil]]].
Qed.

Lemma mcmc_loop_walk (n : nat) (s : chain) (start : list R) :
  valid_rng (rng s) -> vec3 (xi s) ->
  walk start (samp_res s) -> last (samp_res s) start = elems (xi s) ->
  exists s', mcmc_loop notebook n s = Ok s' /\ walk start (samp_res s').
Proof.
  revert s. induction n as [|n IH]; intros s Hg Hv Hw Hl; cbn [mcmc_loop].
  - now exists s.
  - destruct (mcmc_step_ok notebook s notebook_sig_ne notebook_sig_e_ne
                notebook_moderate_y Hv)
      as (s1 & E1 & Hv1 & Hr1 & Hxi & Hsm & _).
    rewrite E1. cbn [bind]. apply IH.
    + intros m. rewrite Hsm. apply Hg.
    + exact Hv1.
    + rewrite Hr1. apply walk_app; [exact Hw|]. rewrite Hl.
      destruct Hv as (x1 & x2 & x3 & Hx).
      destruct Hxi as [-> | ->].
      * rewrite Hx. now apply draw_sel_x_close.
      * rewrite Hx. apply close_refl3.
    + rewrite Hr1. apply last_last.
Qed.

(** On every run with the notebook's configuration, every recorded state
    is one proposal away from the state recorded before it (from the
    start point for the first): no coordinate moves by more than 0.3 in
    one iteration. *)
Theorem chain_steps_bounded (g : RandomState) :
  valid_rng g ->
  exists s, mcmc notebook g = Ok s /\ walk (elems (x0 notebook)) (samp_res s).
Proof.
  intros Hg. unfold mcmc.
  apply mcmc_loop_walk; cbn [mcmc_init rng xi samp_res].
  - exact Hg.
  - apply vec3_x0.
  - exact I.
  - reflexivity.
Qed.

Lemma chain_steps_bounded_witness :
  exists s, mcmc notebook half_rng = Ok s /\ walk (elems (x0 notebook)) (samp_res s).
Proof.
  exact (chain_steps_bounded half_rng valid_half_rng).
Defined.

Lemma log_prob_ok_value (c : Config) (k : seq_kind) (x1 x2 x3 v : R) :
  log_prob c (mkvec k [x1; x2; x3]) = Ok v -> v = log_prob_val c x1 x2 x3.
Proof.
  unfold log_prob_val. destruct (in_support [x1; x2; x3]) eqn:Hin.
  - rewrite (log_prob_branch c k x1 x2 x3 Hin).
    pose proof (proj1 (in_support3_true x1 x2 x3) Hin) as (H1 & H2 & H3).
    destruct (prob_branch_cases c k x1 x2 x3 H1 H2 H3)
      as [(_ & _ & _ & E)|[(_ & E)|[(_ & _ & E)|(_ & _ & _ & E)]]];
      rewrite E; intros H; try discriminate H.
    apply Ok_inj in H. now symmetry.
  - rewrite log_prob_outside by exact Hin. intros H. apply Ok_inj in H. now symmetry.
Qed.

(** With positive [sig] and [sig_e] the value of [log_prob] is never
    positive, and it is zero exactly at a point of the support where the
    flow [x1] equals the measurement and the balance closes. *)
Theorem log_prob_at_most_zero (c : Config) (k : seq_kind) (x1 x2 x3 v : R) :
  0 < sig c -> 0 < sig_e c ->
  log_prob c (mkvec k [x1; x2; x3]) = Ok v ->
  v <= 0 /\
  (v = 0 <-> in_support [x1; x2; x3] = true /\ x1 = y c /\ x1 = x2 + x3).
Proof.
  intros Hs He H. apply log_prob_ok_value in H. subst v.
  unfold log_prob_val. destruct (in_support [x1; x2; x3]) eqn:E.
  - unfold log_density.
    set (A := (y c - x1) ^ 2). set (B := (0 - x1 + x2 + x3) ^ 2).
    assert (HA : 0 <= A) by apply pow2_ge_0.
    assert (HB : 0 <= B) by apply pow2_ge_0.
    assert (H1 : 0 <= A / (2 * sig c)).
    { apply Rmult_le_pos; [exact HA|]. left. apply Rinv_0_lt_compat. lra. }
    assert (H2 : 0 <= B / (2 * sig_e c)).
    { apply Rmult_le_pos; [exact HB|]. left. apply Rinv_0_lt_compat. lra. }
    replace (- A / (2 * sig c) + - B / (2 * sig_e c))
      with (- (A / (2 * sig c) + B / (2 * sig_e c))) by (field; lra).
    split; [lra|]. split.
    + intros H0.
      assert (Z1 : A / (2 * sig c) = 0) by lra.
      assert (Z2 : B / (2 * sig_e c) = 0) by lra.
      assert (ZA : A = 0).
      { apply Rmult_integral in Z1. destruct Z1 as [Z1|Z1]; [exact Z1|].
        pose proof (Rinv_0_lt_compat (2 * sig c) ltac:(lra)). lra. }
      assert (ZB : B = 0).
      { apply Rmult_integral in Z2. destruct Z2 as [Z2|Z2]; [exact Z2|].
        pose proof (Rinv_0_lt_compat (2 * sig_e c) ltac:(lra)). lra. }
      unfold A in ZA. unfold B in ZB.
      split; [reflexivity|]. split; nra.
    + intros (_ & E1 & E2).
      assert (ZA : A = 0) by (unfold A; rewrite E1; ring).
      assert (ZB : B = 0).
      { unfold B. replace (0 - x1 + x2 + x3) with 0 by lra. ring. }
      rewrite ZA, ZB. unfold Rdiv. rewrite !Rmult_0_l. lra.
  - unfold sentinel. split; [lra|]. split; [lra|]. intros (Hf & _). discriminate Hf.
Qed.

Lemma log_prob_at_most_zero_witness :
  log_density notebook 1.5 0.75 0.75 <= 0.
Proof.
  refine (proj1 (log_prob_at_most_zero notebook NdArray 1.5 0.75 0.75 _ _ _
                   (log_prob_inside notebook NdArray 1.5 0.75 0.75
                      notebook_sig_ne notebook_sig_e_ne notebook_moderate_y _))).
  - cbn. lra.
  - cbn. lra.
  - apply in_support3_true. lra.
Defined.

(** ** Exceptions of [log_prob] and of the sampling loop *)

Lemma truediv_no_index (k : seq_kind) (num den : R) (f : R -> outcome R) :
  (forall v, f v <> Raised IndexError) ->
  (v <- truediv k num den ;; f v) <> Raised IndexError.
Proof.
  intros Hf. unfold truediv.
  destruct (Req_dec_T den 0); [destruct k; cbn [bind]; discriminate|].
  cbn [bind]. apply Hf.
Qed.

Lemma pow2_no_index (k : seq_kind) (x : R) (f : R -> outcome R) :
  (forall v, f v <> Raised IndexError) ->
  (v <- pow2 k x ;; f v) <> Raised IndexError.
Proof.
  intros Hf. unfold pow2.
  destruct (Rltb (x ^ 2) float_overflow); [cbn [bind]; apply Hf|].
  destruct k; cbn [bind]; discriminate.
Qed.

(** The subscripts [par[0]], [par[1]], [par[2]] are guarded by the test
    of the support: [log_prob] raises no [IndexError] on a sequence of
    any length, and a sequence of fewer than three flows gets the
    sentinel. *)
Theorem log_prob_index_safe (c : Config) (par : vec) :
  log_prob c par <> Raised IndexError /\
  ((length (elems par) < 3)%nat -> log_prob c par = Ok sentinel).
Proof.
  unfold log_prob. destruct (in_support (elems par)) eqn:E.
  - apply in_support_length in E. split; [|lia].
    destruct par as [k xs]. cbn [elems kind] in *.
    destruct xs as [|x1 [|x2 [|x3 xs]]]; cbn [length] in E; try lia.
    unfold getitem. cbn [elems nth_error bind].
    apply pow2_no_index. intros s1.
    apply truediv_no_index. intros t1.
    apply pow2_no_index. intros s2.
    apply truediv_no_index. intros t2. discriminate.
  - split; [discriminate|reflexivity].
Qed.

Lemma log_prob_index_safe_witness :
  log_prob notebook (mkvec PyList [1; 2]) = Ok sentinel.
Proof.
  apply (proj2 (log_prob_index_safe notebook (mkvec PyList [1; 2]))).
  cbn [elems length]. lia.
Defined.

(** For a configuration all of whose numbers have magnitude at most
    [1e150], the run stops with a [ZeroDivisionError] exactly when [sig]
    or [sig_e] is zero and the start point, the midpoint of the box, lies
    in the support (0,3)^3; it then stops in the first pass.  With a zero
    [sig] and a start point outside the support, no division by zero is
    ever raised: the later states are numpy arrays. *)
Theorem zero_division_exactly (c : Config) (g : RandomState) :
  moderate c ->
  (mcmc c g = Raised ZeroDivisionError <->
   (sig c = 0 \/ sig_e c = 0) /\ in_support (elems (x0 c)) = true).
Proof.
  intros [Hy _]. rewrite mcmc_raised_iff, log_prob_x0_raised. split.
  - intros (Hin & [(H & _)|(_ & _ & Hz)]); [discriminate H|]. now split.
  - intros (Hz & Hin). split; [exact Hin|]. right.
    split; [reflexivity|]. split; [|exact Hz].
    now apply moderate_no_overflow.
Qed.

Lemma zero_sig_moderate : moderate zero_sig.
Proof.
  unfold moderate, moderate_y.
  cbn [zero_sig y a_1 a_2 a_3 b_1 b_2 b_3]. lra.
Qed.

Lemma zero_division_exactly_witness :
  mcmc zero_sig half_rng = Raised ZeroDivisionError.
Proof.
  apply (proj2 (zero_division_exactly zero_sig half_rng zero_sig_moderate)). split.
  - left. reflexivity.
  - unfold x0. cbn [elems zero_sig a_1 a_2 a_3 b_1 b_2 b_3].
    apply in_support3_true. lra.
Defined.
